(** * BOM_RAG: the retrieval-augmented query pipeline

    A shallow embedding of [src/data_processor.py] (class [TextChunker]) and
    [src/rag_pipeline.py] (classes [ChromaVectorStore], [LLMClient] and
    [RAGPipeline]), and the properties of the specification proved on it.

    Conventions of the embedding:
    - a Python [str] is a [string] of 8-bit characters; [str.lower] is its
      restriction to ASCII letters;
    - a Python [int] is a [Z] (a [nat] where it is an index of [enumerate]);
    - a Python [float] is an exact rational [Q], and floats are compared up
      to [Qeq]; binary rounding of the arithmetic is not modelled;
    - third-party objects (the text splitter, the sentence encoder, the
      Chroma collection, the chat-completion client) are parameters of the
      sections that use them. *)

From Stdlib Require Import Ascii QArith Qround Qabs Lqa.
From stdpp Require Import base list strings pretty gmap.
From stdpp Require Import sorting.

Local Open Scope string_scope.

(** ** Text: the [str] operations the program uses *)

Module Text.

Definition nl : string := String (Ascii.ascii_of_nat 10) "".

(** [c.lower()] on one ASCII character. *)
Definition lower_char (c : ascii) : ascii :=
  let n := Ascii.N_of_ascii c in
  if ((65 <=? n) && (n <=? 90))%N then Ascii.ascii_of_N (n + 32) else c.

(** [s.lower()] *)
Fixpoint lower (s : string) : string :=
  match s with
  | "" => ""
  | String c t => String (lower_char c) (lower t)
  end.

(** [s.startswith(p)] *)
Fixpoint startswith (p s : string) : bool :=
  match p, s with
  | "", _ => true
  | String a p', String b s' => if decide (a = b) then startswith p' s' else false
  | String _ _, "" => false
  end.

(** [needle in hay] for two strings. *)
Fixpoint contains (needle hay : string) : bool :=
  startswith needle hay ||
  match hay with
  | "" => false
  | String _ t => contains needle t
  end.

(** [sep.join(parts)] *)
Fixpoint join (sep : string) (parts : list string) : string :=
  match parts with
  | [] => ""
  | [p] => p
  | p :: rest => p +:+ sep +:+ join sep rest
  end.

(** [n * "0"] *)
Fixpoint zeros (n : nat) : string :=
  match n with
  | O => ""
  | S k => String "0" (zeros k)
  end.

(** [str(i)] for a non-negative [int]. *)
Definition str_of_nat (i : nat) : string := pretty i.

(** [f"{i:04d}"] for a non-negative [int]: decimal digits, padded on the
    left with zeros to a width of at least four. *)
Definition format_04d (i : nat) : string :=
  let s := str_of_nat i in
  zeros (4 - String.length s) +:+ s.

(** The value of a string of decimal digits, used to read back what
    [format_04d] wrote. *)
Definition digit_val (c : ascii) : N := (Ascii.N_of_ascii c - 48)%N.

Fixpoint int_of_digits (acc : N) (s : string) : N :=
  match s with
  | "" => acc
  | String c t => int_of_digits (acc * 10 + digit_val c)%N t
  end.

(** ASCII white space, as [str.strip] with no argument removes it. *)
Definition is_space (c : ascii) : bool :=
let n := Ascii.N_of_ascii c in
((9 <=? n) && (n <=? 13) || (28 <=? n) && (n <=? 32))%N.

(** [s.lstrip()] *)
Fixpoint lstrip (s : string) : string :=
match s with
| "" => ""
| String c t => if is_space c then lstrip t else s
end.

(** [s.rstrip()]: the string up to its last character that is not white
    space. *)
Fixpoint rstrip (s : string) : string :=
match s with
| "" => ""
| String c t =>
    match rstrip t with
    | "" => if is_space c then "" else String c ""
    | t' => String c t'
    end
end.

(** [s.strip()] *)
Definition strip (s : string) : string := rstrip (lstrip s).

End Text.

(** ** [src/data_processor.py]: the chunker *)

Module DataProcessor.
Import Text.

(** [TextChunker]. The splitter is langchain's
    [RecursiveCharacterTextSplitter]; only its [split_text] is used, a
    function from the text to the ordered pieces. *)
Record TextChunker := {
  chunk_size : Z;
  overlap : Z;
  split_text : string → list string
}.

(** The dictionary [chunk_text] builds for each piece. *)
Record Chunk := {
  chunk_id : string;
  text : string;
  loan_type : string;
  chunk_index : Z;
  total_chunks : Z
}.

(** [TextChunker._extract_loan_type_from_chunk] *)
Definition _extract_loan_type_from_chunk (chunk : string) : string :=
let chunk_lower := lower chunk in
if contains "home loan" chunk_lower || contains "housing loan" chunk_lower
then "Home Loan"
else if contains "car loan" chunk_lower || contains "vehicle loan" chunk_lower
then "Vehicle Loan"
else if contains "personal loan" chunk_lower
then "Personal Loan"
else if contains "education loan" chunk_lower
then "Education Loan"
else if contains "gold loan" chunk_lower
then "Gold Loan"
else if contains "agriculture" chunk_lower || contains "kisan" chunk_lower
then "Agriculture Loan"
else if contains "msme" chunk_lower || contains "business" chunk_lower
then "MSME Loan"
else if contains "interest rate" chunk_lower
then "Interest Rates"
else "General".

(** [TextChunker.chunk_text]: the loop over [enumerate(chunks)]. *)
Definition chunk_text (self : TextChunker) (txt : string) : list Chunk :=
let chunks := split_text self txt in
imap (λ i chunk,
  {| chunk_id := "chunk_" +:+ format_04d i;
     text := chunk;
     loan_type := _extract_loan_type_from_chunk chunk;
     chunk_index := Z.of_nat i;
     total_chunks := Z.of_nat (length chunks) |}) chunks.

(** The labelling as the specification words it: an ordered list of rules,
    each a set of keywords and a label, and the first rule with a keyword
    in the text decides. *)
Definition label_rules : list (list string * string) :=
[ (["home loan"; "housing loan"], "Home Loan");
  (["car loan"; "vehicle loan"], "Vehicle Loan");
  (["personal loan"], "Personal Loan");
  (["education loan"], "Education Loan");
  (["gold loan"], "Gold Loan");
  (["agriculture"; "kisan"], "Agriculture Loan");
  (["msme"; "business"], "MSME Loan");
  (["interest rate"], "Interest Rates") ].

Definition rule_matches (keywords : list string) (txt : string) : bool :=
existsb (λ kw, contains kw txt) keywords.

Fixpoint first_match (rules : list (list string * string)) (default txt : string)
  : string :=
match rules with
| [] => default
| (keywords, label) :: rest =>
    if rule_matches keywords txt then label else first_match rest default txt
end.

End DataProcessor.

(** ** [src/rag_pipeline.py]: retrieval, answer synthesis, confidence *)

Module RagPipeline.
Import Text.

(** *** Exceptions and outcomes *)

(** An instance of [Exception], with its class name; [str(e)] is
    [exn_msg e]. Interrupts and exits, which [except Exception] lets
    through, are not modelled. *)
Record exn := Exception { exn_type : string; exn_msg : string }.

Inductive outcome (A : Type) : Type :=
| Returns (a : A)
| Raises (e : exn).
Arguments Returns {A} a.
Arguments Raises {A} e.

(** *** Data exchanged with the collaborators *)

(** The metadata [add_documents] stores with a fragment. *)
Record Metadata := { md_loan_type : string; md_chunk_index : Z }.

(** What [Collection.query] answers: one inner list per query embedding,
    or nothing at all for a field. *)
Record QueryResult := {
  qr_documents : option (list (list string));
  qr_distances : option (list (list Q));
  qr_metadatas : option (list (list Metadata))
}.

(** The dictionary [ChromaVectorStore.search] returns. *)
Record SearchResults := {
  documents : list string;
  distances : list Q;
  metadatas : list Metadata
}.

(** The keyword arguments of [chat.completions.create]. *)
Record ChatRequest := {
  model : string;
  messages : list (string * string);
  max_tokens : Z;
  temperature : Q
}.

(** A completion, reduced to the [message.content] of each of its choices
    ([None] when the service sends no text). *)
Definition ChatCompletion : Type := list (option string).

(** The outbound calls, in the order they are made. *)
Inductive Call :=
| CallEncode (txt : string)
| CallQuery (query_embeddings : list (list Q)) (n_results : Z)
| CallChat (request : ChatRequest).

Definition is_chat (c : Call) : bool :=
match c with CallChat _ => true | _ => false end.

(** The values of the response dictionary of [query]. *)
Inductive value :=
| VStr (s : string)
| VFloat (x : Q)
| VStrList (l : list string)
| VFloatList (l : list Q)
| VMetaList (l : list Metadata).

(** *** The collaborators

    [encode] is the sentence encoder for the configured model and
    [collection_query] the nearest-neighbour query of a Chroma collection:
    both are functions of their arguments. The generative service has a
    state of its own, so the same request may be answered differently the
    next time. *)
Class Externals := {
  Collection : Type;
  Remote : Type;
  encode : string → outcome (list Q);
  collection_query : Collection → list (list Q) → Z → outcome QueryResult;
  chat_completions_create : Remote → ChatRequest → outcome ChatCompletion * Remote
}.

Section Pipeline.
Context `{E : Externals}.

(** The state a query runs in: the stored collection, the generative
    service, and the log of calls made so far. *)
Record World := {
  collection : Collection;
  remote : Remote;
  calls : list Call
}.

Definition log (c : Call) (w : World) : World :=
{| collection := collection w; remote := remote w; calls := calls w ++ [c] |}.

(** *** The monad of the pipeline: state and exceptions *)

Definition M (A : Type) : Type := World → outcome A * World.

Definition ret {A} (a : A) : M A := λ w, (Returns a, w).

Definition raise {A} (e : exn) : M A := λ w, (Raises e, w).

Definition bind {A B} (m : M A) (k : A → M B) : M B :=
λ w, match m w with
     | (Returns a, w') => k a w'
     | (Raises e, w') => (Raises e, w')
     end.

(** [try: m except Exception as e: h e] *)
Definition try_except {A} (m : M A) (h : exn → M A) : M A :=
λ w, match m w with
     | (Returns a, w') => (Returns a, w')
     | (Raises e, w') => h e w'
     end.

Notation "x <- m ;; k" := (bind m (λ x, k))
  (at level 100, m at next level, right associativity).

(** *** [EmbeddingManager] *)

(** [EmbeddingManager.embed_text] *)
Definition embed_text (txt : string) : M (list Q) :=
λ w, (encode txt, log (CallEncode txt) w).

(** *** [ChromaVectorStore] *)

(** [self.collection.query(query_embeddings=..., n_results=...)] *)
Definition query_collection (query_embeddings : list (list Q)) (n_results : Z)
  : M QueryResult :=
λ w, (collection_query (collection w) query_embeddings n_results,
      log (CallQuery query_embeddings n_results) w).

(** [r[0] if r else []] *)
Definition first_or_empty {A} (r : option (list (list A))) : list A :=
match r with
| Some (x :: _) => x
| _ => []
end.

(** The dictionary [search] makes of the answer of the collection. *)
Definition search_results_of (results : QueryResult) : SearchResults :=
{| documents := first_or_empty (qr_documents results);
   distances := first_or_empty (qr_distances results);
   metadatas := first_or_empty (qr_metadatas results) |}.

(** [ChromaVectorStore.search] *)
Definition search (query_embedding : list Q) (k : Z) : M SearchResults :=
results <- query_collection [query_embedding] k ;;
ret (search_results_of results).

(** *** [LLMClient] *)

Record LLMClient := { llm_model : string }.

Definition system_content : string :=
"You are a knowledgeable banking assistant for Bank of Maharashtra. " +:+
"Provide detailed, comprehensive answers about loan products based on the context provided. " +:+
"Include specific details like interest rates, tenure, eligibility criteria, features, and benefits when available. " +:+
"Structure your answers clearly with relevant details. " +:+
"If the information is not in the context, say so politely.".

(** [LLMClient._build_prompt] *)
Definition _build_prompt (question context : string) : string :=
"Based on the following information about Bank of Maharashtra loan products, provide a detailed and comprehensive answer to the question." +:+ nl +:+
nl +:+
"Context Information:" +:+ nl +:+
context +:+ nl +:+
nl +:+
"Question: " +:+ question +:+ nl +:+
nl +:+
"Instructions:" +:+ nl +:+
"- Provide a detailed answer with specific information from the context" +:+ nl +:+
"- Include relevant details such as interest rates, tenure, eligibility, features, and benefits" +:+ nl +:+
"- Structure the answer clearly with key points" +:+ nl +:+
"- Be specific and informative" +:+ nl +:+
"- If multiple loan schemes are relevant, mention them" +:+ nl +:+
nl +:+
"Answer: ".

(** [self.client.chat.completions.create(...)] *)
Definition create (request : ChatRequest) : M ChatCompletion :=
λ w, let '(r, remote') := chat_completions_create (remote w) request in
     (r, {| collection := collection w; remote := remote';
            calls := calls w ++ [CallChat request] |}).

(** [response.choices[0]] *)
Definition first_choice (response : ChatCompletion) : M (option string) :=
match response with
| c :: _ => ret c
| [] => raise (Exception "IndexError" "list index out of range")
end.

(** [message.content.strip()] *)
Definition content_strip (content : option string) : M string :=
match content with
| Some s => ret (strip s)
| None => raise (Exception "AttributeError"
                   "'NoneType' object has no attribute 'strip'")
end.

Definition apology : string := "I apologize, but I encountered an error: ".

(** The arguments [generate_answer] passes to the service. *)
Definition chat_request (self : LLMClient) (prompt : string) (max_tokens : Z)
  : ChatRequest :=
{| model := llm_model self;
   messages := [("system", system_content); ("user", prompt)];
   max_tokens := max_tokens;
   temperature := 3 # 10 |}.

(** [LLMClient.generate_answer] *)
Definition generate_answer (self : LLMClient) (question context : string)
  (max_tokens : Z) : M string :=
let prompt := _build_prompt question context in
try_except
  (response <- create (chat_request self prompt max_tokens) ;;
   choice <- first_choice response ;;
   answer <- content_strip choice ;;
   ret answer)
  (λ e, ret (apology +:+ exn_msg e)).

(** *** [RAGPipeline] *)

Record RAGPipeline := { llm_client : LLMClient; top_k : Z }.

(** [RAGPipeline._build_context] *)
Definition _build_context (search_results : SearchResults) : string :=
let context_parts :=
  imap (λ i doc, "[Source " +:+ str_of_nat (S i) +:+ "]" +:+ nl +:+ doc +:+ nl)
       (documents search_results) in
join nl context_parts.

(** [sum(distances)]: the additions from left to right, from [0]. *)
Definition py_sum (l : list Q) : Q := fold_left Qplus l 0%Q.

(** [min(a, b)] and [max(a, b)]: the first argument unless the second is
    strictly beyond it. *)
Definition py_min (a b : Q) : Q := if Qle_bool a b then a else b.
Definition py_max (a b : Q) : Q := if Qle_bool b a then a else b.

(** Rounding to the nearest integer, a tie going to the even one. *)
Definition round_half_even (x : Q) : Z :=
let f := Qfloor x in
match (x - inject_Z f ?= 1 # 2)%Q with
| Lt => f
| Gt => (f + 1)%Z
| Eq => if Z.even f then f else (f + 1)%Z
end.

(** [round(x, 2)] *)
Definition py_round2 (x : Q) : Q := round_half_even (x * 100) # 100.

(** [RAGPipeline._calculate_confidence] *)
Definition _calculate_confidence (distances : list Q) : Q :=
match distances with
| [] => 0
| _ =>
    let avg_distance := (py_sum distances / inject_Z (Z.of_nat (length distances)))%Q in
    let confidence := py_max 0 (py_min 1 (1 - avg_distance)) in
    py_round2 confidence
end.

Definition no_information : string :=
"I couldn't find relevant information to answer your question.".

(** [RAGPipeline.query] *)
Definition query (self : RAGPipeline) (question : string)
  : M (gmap string value) :=
query_embedding <- embed_text question ;;
search_results <- search query_embedding (top_k self) ;;
match documents search_results with
| [] =>
    ret (list_to_map
           [("question", VStr question);
            ("answer", VStr no_information);
            ("sources", VStrList []);
            ("confidence", VFloat 0)])
| _ =>
    let context := _build_context search_results in
    answer <- generate_answer (llm_client self) question context 2000 ;;
    let response : gmap string value :=
      list_to_map
        [("question", VStr question);
         ("answer", VStr answer);
         ("sources", VStrList (documents search_results));
         ("metadata", VMetaList (metadatas search_results));
         ("distances", VFloatList (distances search_results));
         ("confidence", VFloat (_calculate_confidence (distances search_results)))] in
    ret response
end.

End Pipeline.

(** *** The confidence scorer as the specification words it *)

Definition mean (l : list Q) : Q :=
(fold_right Qplus 0 l / inject_Z (Z.of_nat (length l)))%Q.

Definition clamp (x lo hi : Q) : Q :=
if Qle_bool lo x then (if Qle_bool x hi then x else hi) else lo.


(** What a caller sees of the [sources] and the [confidence] of a query:
    the two entries of the response, or the exception raised. *)
Definition sources_confidence (r : outcome (gmap string value))
  : outcome (option value * option value) :=
match r with
| Returns response => Returns (response !! "sources", response !! "confidence")
| Raises e => Raises e
end.

End RagPipeline.

(** ** Words for the shape of a text

    What the properties of the cleaning code are stated with. *)

Module TextShape.
Import Text.

Definition space : ascii := " "%char.
Definition newline : ascii := Ascii.ascii_of_nat 10.

(** The first and the last character of a string. *)
Definition head_char (s : string) : option ascii :=
match s with
| "" => None
| String c _ => Some c
end.

Fixpoint last_char (s : string) : option ascii :=
match s with
| "" => None
| String c "" => Some c
| String _ t => last_char t
end.

(** The string begins, or ends, with white space. *)
Definition starts_with_space (s : string) : bool :=
match head_char s with Some c => is_space c | None => false end.

Definition ends_with_space (s : string) : bool :=
match last_char s with Some c => is_space c | None => false end.

(** The characters of a string that are not white space, in order. *)
Fixpoint nonspace (s : string) : string :=
match s with
| "" => ""
| String c t => if is_space c then nonspace t else String c (nonspace t)
end.

(** The character [c] occurs in [s]. *)
Fixpoint has_char (c : ascii) (s : string) : bool :=
match s with
| "" => false
| String a t => bool_decide (a = c) || has_char c t
end.

(** The character [c] never occurs twice in a row in [s]. *)
Fixpoint no_pair (c : ascii) (s : string) : bool :=
match s with
| "" => true
| String a t =>
    negb (bool_decide (a = c) && bool_decide (head_char t = Some c))
    && no_pair c t
end.

(** A line as the cleaner keeps it: not empty, no white space at either
    end, on one line, and no two spaces in a row. *)
Definition kept_line (line : string) : Prop :=
line ≠ "" ∧ starts_with_space line = false ∧ ends_with_space line = false ∧
has_char newline line = false ∧ no_pair space line = true.

End TextShape.

(** ** [src/data_processor.py]: cleaning and consolidation *)

Module Cleaner.
Import Text TextShape RagPipeline.

(** [DataCleaner]. The class has no state; its two fields stand for the
    libraries it calls: [soup_text] for parsing a page with BeautifulSoup,
    dropping the script, style, nav, footer, header and aside elements and
    taking the text, which may raise; [noise_sub] for the ten
    case-insensitive [re.sub(pattern, '', text)] of [remove_noise] one
    after the other. *)
Record DataCleaner := {
  soup_text : string → outcome string;
  noise_sub : string → string
}.

(** [DataCleaner.clean_html] *)
Definition clean_html (self : DataCleaner) (html_content : string) : string :=
if decide (html_content = "") then ""
else match soup_text self html_content with
     | Returns txt => txt
     | Raises _ => html_content
     end.

(** [DataCleaner.remove_noise] *)
Definition remove_noise (self : DataCleaner) (txt : string) : string :=
if decide (txt = "") then "" else noise_sub self txt.

(** [re.sub(r' +', ' ', text)]: every run of spaces becomes one space.
    [in_run] tells that the character before was a space. *)
Fixpoint collapse_spaces_from (in_run : bool) (s : string) : string :=
match s with
| "" => ""
| String c t =>
    if decide (c = space)
    then if in_run then collapse_spaces_from true t
         else String space (collapse_spaces_from true t)
    else String c (collapse_spaces_from false t)
end.

Definition collapse_spaces (s : string) : string := collapse_spaces_from false s.

(** [n] line breaks. *)
Fixpoint newlines (n : nat) : string :=
match n with
| O => ""
| S k => String newline (newlines k)
end.

(** [re.sub(r'\n{3,}', '\n\n', text)]: every run of three or more line
    breaks becomes two. [run] counts the line breaks read since the last
    other character. *)
Fixpoint collapse_newlines_from (run : nat) (s : string) : string :=
match s with
| "" => newlines (run `min` 2)
| String c t =>
    if decide (c = newline)
    then collapse_newlines_from (S run) t
    else newlines (run `min` 2) +:+ String c (collapse_newlines_from 0 t)
end.

Definition collapse_newlines (s : string) : string := collapse_newlines_from 0 s.

(** [text.split('\n')] *)
Fixpoint split_newline (s : string) : list string :=
match s with
| "" => [""]
| String c t =>
    if decide (c = newline) then "" :: split_newline t
    else match split_newline t with
         | line :: lines => String c line :: lines
         | [] => [String c ""]
         end
end.

(** [DataCleaner.normalize_text]. The re-encoding to UTF-8 with errors
    ignored drops lone surrogates only, which these strings do not have. *)
Definition normalize_text (txt : string) : string :=
if decide (txt = "") then ""
else
  let txt := collapse_spaces txt in
  let txt := collapse_newlines txt in
  let lines := map strip (split_newline txt) in
  let txt := join nl (filter (λ line, line ≠ "") lines) in
  strip txt.

(** [DataCleaner.clean_text] *)
Definition clean_text (self : DataCleaner) (txt : string) : string :=
let txt := remove_noise self txt in
let txt := normalize_text txt in
txt.

End Cleaner.

Module Consolidator.
Import Text Cleaner.

(** A record of the scraped data, as loaded from JSON: a dictionary in
    which any of the keys the code reads may be missing. *)
Record LoanPage := {
  pg_success : option bool;
  pg_loan_type : option string;
  pg_loan_name : option string;
  pg_content : option string;
  pg_raw_html : option string;
  pg_url : option string
}.

(** [DataConsolidator] *)
Record DataConsolidator := { cleaner : DataCleaner }.

(** [item.get('success', False)] *)
Definition successful (item : LoanPage) : bool := default false (pg_success item).

(** [item.get('loan_type', 'Other Loans')] *)
Definition loan_type_of (item : LoanPage) : string :=
default "Other Loans" (pg_loan_type item).

(** [grouped[loan_type].append(item)], after
    [if loan_type not in grouped: grouped[loan_type] = []]; the dictionary
    keeps its keys in the order they were first used. *)
Fixpoint append_item (loan_type : string) (item : LoanPage)
  (grouped : list (string * list LoanPage)) : list (string * list LoanPage) :=
match grouped with
| [] => [(loan_type, [item])]
| (k, items) :: rest =>
    if decide (k = loan_type) then (k, (items ++ [item])%list) :: rest
    else (k, items) :: append_item loan_type item rest
end.

(** One turn of the loop of [structure_by_product]. *)
Definition group_step (grouped : list (string * list LoanPage)) (item : LoanPage)
  : list (string * list LoanPage) :=
if successful item then append_item (loan_type_of item) item grouped
else grouped.

(** The order of [sorted(grouped.items())]: the keys of a dictionary are
    distinct, so the comparison of two items is decided by their keys. *)
Definition key_le (a b : string * list LoanPage) : Prop := String.le a.1 b.1.

#[global] Instance key_le_dec : RelDecision key_le.
Proof. intros a b. unfold key_le. apply _. Defined.

(** [DataConsolidator.structure_by_product] *)
Definition structure_by_product (data : list LoanPage)
  : list (string * list LoanPage) :=
let grouped := fold_left group_step data [] in
merge_sort key_le grouped.

Definition header : string :=
"# Bank of Maharashtra Loan Products Knowledge Base" +:+ nl +:+ nl +:+
"This document contains comprehensive information about various loan products offered by Bank of Maharashtra." +:+ nl +:+ nl.

(** What the body of the inner loop of [consolidate_loan_data] appends for
    one loan. *)
Definition loan_block (self : DataConsolidator) (loan : LoanPage) : string :=
if negb (successful loan) then ""
else
  let loan_name := default "Unknown Loan" (pg_loan_name loan) in
  let content := default "" (pg_content loan) in
  let content :=
    match pg_raw_html loan with
    | Some raw_html =>
        if decide (raw_html = "") then content
        else clean_html (cleaner self) raw_html
    | None => content
    end in
  let content := clean_text (cleaner self) content in
  if decide (content = "") then ""
  else "### " +:+ loan_name +:+ nl +:+ nl +:+
       content +:+ nl +:+ nl +:+
       "Source: " +:+ default "N/A" (pg_url loan) +:+ nl +:+ nl +:+
       "---" +:+ nl +:+ nl.

(** [DataConsolidator.consolidate_loan_data] *)
Definition consolidate_loan_data (self : DataConsolidator)
  (raw_data : list LoanPage) : string :=
let grouped_data := structure_by_product raw_data in
fold_left
  (λ consolidated_text group,
     fold_left (λ consolidated_text loan,
                  consolidated_text +:+ loan_block self loan)
       group.2
       (consolidated_text +:+ nl +:+ "## " +:+ group.1 +:+ nl +:+ nl))
  grouped_data header.

End Consolidator.

(** ** [src/main.py]: the question loop of [cmd_query] *)

Module Cli.
Import Text.

(** What one turn of the loop does with the line read. *)
Inductive Turn :=
| Skip
| Leave
| Ask (question : string).

(** The body of the [while True] loop of [cmd_query], up to the call of
    [query]: the line read is stripped; an empty one is skipped, one of the
    three leaving words ends the loop, anything else is asked. *)
Definition turn (line : string) : Turn :=
let question := strip line in
if decide (question = "") then Skip
else if bool_decide (lower question ∈ ["exit"; "quit"; "q"]) then Leave
else Ask question.

End Cli.

(** ** [src/scraper.py]: labelling a URL, fetching with retries *)

Module Scraper.
Import Text DataProcessor RagPipeline.

(** [BankOfMaharashtraScraper._extract_loan_type] *)
Definition _extract_loan_type (url : string) : string :=
let url_lower := lower url in
if contains "retail-interest" url_lower then "Retail Interest Rates"
else if contains "advance" url_lower then "Interest Rates"
else if contains "home" url_lower || contains "housing" url_lower
        || contains "awas" url_lower || contains "topup" url_lower
        || contains "green-building" url_lower
then "Home Loan"
else if contains "car" url_lower || contains "vehicle" url_lower
        || contains "wheeler" url_lower || contains "transport" url_lower
then "Vehicle Loan"
else if contains "doctor" url_lower || contains "professional" url_lower
        || contains "mpls" url_lower
then "Professional Loan"
else if contains "personal" url_lower || contains "salary" url_lower
        || contains "lap" url_lower || contains "mortgage" url_lower
then "Personal Loan"
else if contains "education" url_lower || contains "scholar" url_lower
        || contains "skill" url_lower
then "Education Loan"
else if contains "gold" url_lower then "Gold Loan"
else if contains "solar" url_lower || contains "rooftop" url_lower
then "Solar Loan"
else if contains "lad" url_lower then "Loan Against Deposit"
else if contains "adhaar" url_lower then "Adhaar Loan"
else if contains "covid" url_lower then "COVID-19 Loan"
else if contains "msme" url_lower || contains "gst" url_lower
        || contains "hotel" url_lower || contains "contractor" url_lower
        || contains "mudra" url_lower || contains "stand-up" url_lower
        || contains "collateral-free" url_lower
then "MSME Loan"
else if contains "kisan" url_lower || contains "agri" url_lower
        || contains "farm" url_lower || contains "plantation" url_lower
        || contains "estate" url_lower || contains "warehouse" url_lower
        || contains "pumpset" url_lower
then "Agriculture Loan"
else "Other Loan".

(** The same chain as an ordered list of rules. *)
Definition url_rules : list (list string * string) :=
[ (["retail-interest"], "Retail Interest Rates");
  (["advance"], "Interest Rates");
  (["home"; "housing"; "awas"; "topup"; "green-building"], "Home Loan");
  (["car"; "vehicle"; "wheeler"; "transport"], "Vehicle Loan");
  (["doctor"; "professional"; "mpls"], "Professional Loan");
  (["personal"; "salary"; "lap"; "mortgage"], "Personal Loan");
  (["education"; "scholar"; "skill"], "Education Loan");
  (["gold"], "Gold Loan");
  (["solar"; "rooftop"], "Solar Loan");
  (["lad"], "Loan Against Deposit");
  (["adhaar"], "Adhaar Loan");
  (["covid"], "COVID-19 Loan");
  (["msme"; "gst"; "hotel"; "contractor"; "mudra"; "stand-up";
    "collateral-free"], "MSME Loan");
  (["kisan"; "agri"; "farm"; "plantation"; "estate"; "warehouse"; "pumpset"],
   "Agriculture Loan") ].

(** The HTTP session: [session_get] is [session.get(url, timeout=30)]
    followed by [raise_for_status()], on a network with a state of its own;
    [request_exception e] tells whether [e] is a
    [requests.RequestException]. *)
Class Web := {
  Net : Type;
  Response : Type;
  session_get : Net → string → outcome Response * Net;
  request_exception : exn → bool
}.

Section Requests.
Context `{W : Web}.

(** What a fetch does that can be seen from outside. *)
Inductive Event :=
| Fetched (url : string)
| Slept (seconds : Q).

Record Site := { net : Net; events : list Event }.

Record BankOfMaharashtraScraper := {
  base_url : string;
  delay : Q;
  max_retries : Z
}.

(** [time.sleep(seconds)], which refuses a negative length. *)
Definition sleep (seconds : Q) (s : Site) : outcome unit * Site :=
if Qle_bool 0 seconds
then (Returns (), {| net := net s; events := events s ++ [Slept seconds] |})
else (Raises (Exception "ValueError" "sleep length must be non-negative"), s).

(** The body of the [try] of [_make_request]. *)
Definition fetch_once (self : BankOfMaharashtraScraper) (url : string) (s : Site)
  : outcome Response * Site :=
let '(r, net') := session_get (net s) url in
let s1 := {| net := net'; events := events s ++ [Fetched url] |} in
match r with
| Returns response =>
    match sleep (delay self) s1 with
    | (Returns _, s2) => (Returns response, s2)
    | (Raises e, s2) => (Raises e, s2)
    end
| Raises e => (Raises e, s1)
end.

(** The loop [for attempt in range(self.max_retries)], from [attempt] on
    with [remaining] turns left; falling off its end returns [None]. *)
Fixpoint attempts (self : BankOfMaharashtraScraper) (url : string)
  (attempt : Z) (remaining : nat) (s : Site) : outcome (option Response) * Site :=
match remaining with
| O => (Returns None, s)
| S remaining' =>
    match fetch_once self url s with
    | (Returns response, s1) => (Returns (Some response), s1)
    | (Raises e, s1) =>
        if request_exception e then
          if (attempt <? max_retries self - 1)%Z then
            let wait_time := ((attempt + 1) * 2)%Z in
            match sleep (inject_Z wait_time) s1 with
            | (Returns _, s2) => attempts self url (attempt + 1) remaining' s2
            | (Raises e', s2) => (Raises e', s2)
            end
          else (Returns None, s1)
        else (Raises e, s1)
    end
end.

(** [BankOfMaharashtraScraper._make_request] *)
Definition _make_request (self : BankOfMaharashtraScraper) (url : string)
  (s : Site) : outcome (option Response) * Site :=
attempts self url 0 (Z.to_nat (max_retries self)) s.

(** The URLs fetched and the lengths slept among some events. *)
Definition fetches (l : list Event) : list string :=
omap (λ ev, match ev with Fetched url => Some url | Slept _ => None end) l.


End Requests.

End Scraper.

(** ** [src/rag_pipeline.py]: writing the index *)

Module IndexBuild.
Import Text DataProcessor RagPipeline.

(** A chunk as loaded from the manifest: a dictionary in which any of the
    keys read here may be missing. *)
Record ChunkEntry := {
  ck_chunk_id : option string;
  ck_text : option string;
  ck_loan_type : option string;
  ck_chunk_index : option Z
}.

(** The entry the manifest holds for a chunk of [chunk_text], written and
    read back as JSON. *)
Definition manifest_entry (c : Chunk) : ChunkEntry :=
{| ck_chunk_id := Some (chunk_id c);
   ck_text := Some (text c);
   ck_loan_type := Some (loan_type c);
   ck_chunk_index := Some (chunk_index c) |}.

(** The keyword arguments of [collection.add]. *)
Record AddArguments := {
  arg_ids : list string;
  arg_embeddings : list (list Q);
  arg_documents : list string;
  arg_metadatas : list Metadata
}.

(** The writing side of the collaborators: [collection_add] is
    [collection.add(...)], [collection_reset] is [delete_collection]
    followed by [create_collection] under the same name, and
    [encode_batch] is the encoder on a list of texts. The two writes give
    the state of the collection they leave, also when they raise. *)
Class Storage `{E : Externals} := {
  collection_add : Collection → AddArguments → outcome unit * Collection;
  collection_reset : Collection → outcome unit * Collection;
  encode_batch : list string → outcome (list (list Q))
}.

Section Build.
Context `{S : Storage}.

Notation "x <- m ;; k" := (bind m (λ x, k))
  (at level 100, m at next level, right associativity).

(** [d[key]]: the value, or [KeyError(key)]. *)
Definition getitem {A} (key : string) (value : option A) : M A :=
match value with
| Some v => ret v
| None => raise (Exception "KeyError" ("'" +:+ key +:+ "'"))
end.

(** [[f(x) for x in l]] where [f] may raise. *)
Fixpoint for_each {A B} (f : A → M B) (l : list A) : M (list B) :=
match l with
| [] => ret []
| x :: rest =>
    y <- f x ;;
    ys <- for_each f rest ;;
    ret (y :: ys)
end.

(** The outcome of a write, with the state of the collection it left. *)
Definition store (written : outcome unit * Collection) : M unit :=
λ w, (written.1,
      {| collection := written.2; remote := remote w; calls := calls w |}).

(** [ChromaVectorStore.add_documents] *)
Definition add_documents (chunks : list ChunkEntry) (embeddings : list (list Q))
  : M unit :=
ids <- for_each (λ chunk, getitem "chunk_id" (ck_chunk_id chunk)) chunks ;;
documents <- for_each (λ chunk, getitem "text" (ck_text chunk)) chunks ;;
let metadatas :=
  map (λ chunk, {| md_loan_type := default "General" (ck_loan_type chunk);
                   md_chunk_index := default 0%Z (ck_chunk_index chunk) |})
      chunks in
λ w, store (collection_add (collection w)
              {| arg_ids := ids; arg_embeddings := embeddings;
                 arg_documents := documents; arg_metadatas := metadatas |}) w.

(** [ChromaVectorStore.clear] *)
Definition clear : M unit :=
λ w, store (collection_reset (collection w)) w.



End Build.

End IndexBuild.

(** ** Stand-ins for the collaborators

    Small concrete collaborators on which the program is run: a splitter
    that cuts a text in two, a collection that holds its fragments with
    their distance to any query, and a generative service that plays a
    script of replies and is unreachable once the script is over. *)

Module Fixture.
Import Text DataProcessor RagPipeline.

Definition halves : TextChunker :=
{| chunk_size := 500;
   overlap := 50;
   split_text := λ t, [String.substring 0 20 t; String.substring 20 20 t] |}.

(** The second dictionary [chunk_text] builds from
    "Home loan rate is 8.5%. Personal loan" with [halves]. *)
Definition second_half : Chunk :=
{| chunk_id := "chunk_0001";
   text := "5%. Personal loan";
   loan_type := "Personal Loan";
   chunk_index := 1;
   total_chunks := 2 |}.

Definition stored_documents (c : list (string * Q * Metadata)) : list string :=
map (λ entry, entry.1.1) c.

Definition stored_distances (c : list (string * Q * Metadata)) : list Q :=
map (λ entry, entry.1.2) c.

Definition stored_metadatas (c : list (string * Q * Metadata)) : list Metadata :=
map (λ entry, entry.2) c.

Definition scripted : Externals :=
{| Collection := list (string * Q * Metadata);
   Remote := list (outcome ChatCompletion);
   encode := λ txt, Returns [inject_Z (Z.of_nat (String.length txt))];
   collection_query := λ c _ k,
     if (k <=? 0)%Z
     then Raises (Exception "ValueError"
                    "Number of requested results cannot be negative, or zero.")
     else let hits := take (Z.to_nat k) c in
          Returns {| qr_documents := Some [stored_documents hits];
                     qr_distances := Some [stored_distances hits];
                     qr_metadatas := Some [stored_metadatas hits] |};
   chat_completions_create := λ script _,
     match script with
     | reply :: rest => (reply, rest)
     | [] => (Raises (Exception "APIConnectionError" "Connection error."), [])
     end |}.

Definition pipeline : RAGPipeline :=
{| llm_client := {| llm_model := "gpt-4" |}; top_k := 3 |}.

(** A pipeline configured to ask for no result at all. *)
Definition asking_none : RAGPipeline :=
{| llm_client := {| llm_model := "gpt-4" |}; top_k := 0 |}.

Definition two_fragments : list (string * Q * Metadata) :=
[ ("Home loan rate is 8.5%.", 1 # 4,
   {| md_loan_type := "Home Loan"; md_chunk_index := 0 |});
  ("Personal loan tenure is 5 years.", 1 # 2,
   {| md_loan_type := "Personal Loan"; md_chunk_index := 1 |}) ].

(** An index of two fragments and a service that answers once. *)
Definition serving : World (E := scripted) :=
@Build_World scripted two_fragments [Returns [Some " The rate is 8.5%. "]] [].

(** The same index with the service unreachable. *)
Definition unreachable : World (E := scripted) :=
@Build_World scripted two_fragments [] [].

(** An empty index. *)
Definition empty_index : World (E := scripted) :=
@Build_World scripted [] [Returns [Some "unused"]] [].

End Fixture.

(** ** Sample inputs for the cleaning code and the scraper *)

Module Samples.
Import Text DataProcessor RagPipeline Cleaner Consolidator Scraper IndexBuild.
Import Fixture.

(** Two retrieved documents. *)
Definition two_documents : SearchResults :=
{| documents := ["Home loan rate is 8.5%."; "Personal loan tenure is 5 years."];
   distances := [1 # 4; 1 # 2];
   metadatas := [] |}.

(** A text with runs of spaces, blank lines and white space at line ends. *)
Definition untidy : string :=
"  Home   Loan " +:+ nl +:+ nl +:+ nl +:+ nl +:+ " rate  8.5%  " +:+ nl +:+
"   " +:+ nl +:+ "tenure" +:+ nl.

(** A cleaner whose parser always fails and that removes no noise. *)
Definition plain : DataConsolidator :=
{| cleaner := {| soup_text := λ _, Raises (Exception "ParserError" "no parser");
                 noise_sub := λ txt, txt |} |}.

Definition page (ok : option bool) (loan_type loan_name content : option string)
  : LoanPage :=
{| pg_success := ok; pg_loan_type := loan_type; pg_loan_name := loan_name;
   pg_content := content; pg_raw_html := None; pg_url := None |}.

Definition gold : LoanPage :=
page (Some true) (Some "Gold Loan") (Some "Agri Gold") (Some " rate  9% ").

Definition pages : list LoanPage :=
[ gold;
  page None (Some "Car Loan") None None;
  page (Some true) None (Some "Loan against deposit") (Some "");
  page (Some false) (Some "Gold Loan") (Some "Failed") (Some "x");
  page (Some true) (Some "Gold Loan") None (Some "MSME gold") ].

(** A site that refuses every connection. *)
Definition down : Web :=
{| Net := nat;
   Response := string;
   session_get := λ requests _,
     (Raises (Exception "ConnectionError" "connection refused"), S requests);
   request_exception := λ e, bool_decide (exn_type e = "ConnectionError") |}.


Definition idle : BankOfMaharashtraScraper :=
{| base_url := "https://bankofmaharashtra.bank.in"; delay := 3 # 2;
   max_retries := 0 |}.

Definition fresh : Site (W := down) := @Build_Site down 0%nat [].

(** A store that appends what it is given, and an encoder whose model
    cannot be loaded. *)
Definition append_entries (c : list (string * Q * Metadata))
  (args : AddArguments) : outcome unit * list (string * Q * Metadata) :=
(Returns (),
 (c ++ ((λ entry : string * Metadata, (entry.1, 0%Q, entry.2))
        <$> zip (arg_documents args) (arg_metadatas args)))%list).

Definition offline : Storage (E := scripted) :=
@Build_Storage scripted append_entries (λ _, (Returns (), []))
  (λ _, Raises (Exception "OSError" "model not found")).

Definition without_id : ChunkEntry :=
{| ck_chunk_id := None; ck_text := Some "Home loan rate is 8.5%.";
   ck_loan_type := None; ck_chunk_index := None |}.

End Samples.

(** * Properties *)

(** ** Facts about the text operations *)

Section TextFacts.
Import Text.

Lemma lower_app s t : lower (s +:+ t) = lower s +:+ lower t.
Proof. induction s as [|c s IH]; simpl; [done | by rewrite IH]. Qed.

Lemma startswith_app p t : startswith p (p +:+ t) = true.
Proof.
  induction p as [|c p IH]; simpl; [done|].
  by rewrite decide_True.
Qed.

Lemma startswith_inv p s : startswith p s = true → ∃ t, s = p +:+ t.
Proof.
  revert s. induction p as [|a p IH]; intros s H; simpl in *.
  - by exists s.
  - destruct s as [|b s]; [done|].
    destruct (decide (a = b)) as [->|]; [|done].
    destruct (IH _ H) as [t ->]. by exists t.
Qed.

Lemma contains_app needle pre post :
  contains needle (pre +:+ needle +:+ post) = true.
Proof.
  induction pre as [|c pre IH]; simpl.
  - destruct (needle +:+ post) eqn:E; simpl;
      rewrite <- E, startswith_app; done.
  - rewrite IH. apply orb_true_r.
Qed.

Lemma contains_inv needle hay :
  contains needle hay = true → ∃ pre post, hay = pre +:+ needle +:+ post.
Proof.
  induction hay as [|c hay IH]; simpl; intros H.
  - rewrite orb_false_r in H. apply startswith_inv in H as [t ->].
    by exists "", t.
  - apply orb_true_iff in H as [H|H].
    + apply startswith_inv in H as [t ->]. by exists "", t.
    + destruct (IH H) as (pre & post & ->). by exists (String c pre), post.
Qed.

Lemma digit_val_char x : (x < 10)%N → digit_val (pretty_N_char x) = x.
Proof.
  intros H.
  assert (x = 0 ∨ x = 1 ∨ x = 2 ∨ x = 3 ∨ x = 4 ∨ x = 5 ∨ x = 6
          ∨ x = 7 ∨ x = 8 ∨ x = 9)%N as Hx by lia.
  by destruct Hx as [->|[->|[->|[->|[->|[->|[->|[->|[->| ->]]]]]]]]].
Qed.

Lemma int_of_digits_go x s :
  int_of_digits 0 (pretty_N_go x s) = int_of_digits x s.
Proof.
  revert s. induction (N.lt_wf_0 x) as [x _ IH]; intros s.
  destruct (decide (x = 0)%N) as [->|Hx]; [by rewrite pretty_N_go_0|].
  rewrite pretty_N_go_step by lia.
  rewrite IH by (apply N.div_lt; lia).
  simpl. rewrite digit_val_char by (apply N.mod_lt; lia).
  f_equal. pose proof (N.div_mod x 10). lia.
Qed.

Lemma int_of_digits_str i : int_of_digits 0 (str_of_nat i) = N.of_nat i.
Proof.
  unfold str_of_nat, pretty, pretty_nat, pretty, pretty_N.
  case_decide as H; [by rewrite H|].
  by rewrite int_of_digits_go.
Qed.

Lemma int_of_digits_zeros n s :
  int_of_digits 0 (zeros n +:+ s) = int_of_digits 0 s.
Proof. induction n as [|n IH]; simpl; done. Qed.

(** Reading back a formatted index gives the index: the formatting loses
    nothing, whatever the number of digits. *)
Lemma int_of_digits_format i : int_of_digits 0 (format_04d i) = N.of_nat i.
Proof. unfold format_04d. by rewrite int_of_digits_zeros, int_of_digits_str. Qed.

Lemma format_04d_inj i j : format_04d i = format_04d j → i = j.
Proof.
  intros H. apply (f_equal (int_of_digits 0)) in H.
  rewrite !int_of_digits_format in H. lia.
Qed.

End TextFacts.

(** ** The chunker *)

Section ChunkerFacts.
Import Text DataProcessor.

Lemma rule_matches_app keywords kw pre post :
  kw ∈ keywords → rule_matches keywords (pre +:+ kw +:+ post) = true.
Proof.
  intros Hin. unfold rule_matches. apply existsb_exists.
  exists kw. split; [by apply list_elem_of_In | apply contains_app].
Qed.

Lemma extract_loan_type_rules chunk :
  _extract_loan_type_from_chunk chunk
  = first_match label_rules "General" (lower chunk).
Proof.
  unfold _extract_loan_type_from_chunk, label_rules.
  generalize (lower chunk) as s. intros s.
  cbn [first_match rule_matches existsb].
  rewrite !orb_false_r. reflexivity.
Qed.

(** C8. The label of a fragment is the label of the first rule, in the
    fixed order of the vocabulary, one of whose keywords occurs in the
    lowercased text; a fragment in which "home loan" occurs in any mix of
    upper and lower case is labelled "Home Loan"; a fragment in which no
    keyword of any rule occurs is labelled "General". *)
Theorem extract_loan_type_first_match :
  (∀ chunk,
     _extract_loan_type_from_chunk chunk
     = first_match label_rules "General" (lower chunk)) ∧
  (∀ pre w post,
     lower w = "home loan" →
     _extract_loan_type_from_chunk (pre +:+ w +:+ post) = "Home Loan") ∧
  (∀ chunk,
     Forall (λ rule, rule_matches rule.1 (lower chunk) = false) label_rules →
     _extract_loan_type_from_chunk chunk = "General").
Proof.
  split; [exact extract_loan_type_rules|]. split.
  - intros pre w post Hw.
    rewrite extract_loan_type_rules, !lower_app, Hw.
    unfold label_rules. cbn [first_match].
    rewrite rule_matches_app; [done | set_solver].
  - intros chunk Hnone. rewrite extract_loan_type_rules.
    induction Hnone as [|[kws lbl] rules Hr _ IH]; [done|].
    cbn [first_match]. simpl in Hr. by rewrite Hr.
Qed.

Lemma extract_loan_type_first_match_witness :
  _extract_loan_type_from_chunk "Apply for a HOME Loan today" = "Home Loan" ∧
  _extract_loan_type_from_chunk "Opening hours" = "General".
Proof.
  destruct extract_loan_type_first_match as (_ & Hhome & Hgeneral). split.
  - apply (Hhome "Apply for a " "HOME Loan" " today"). reflexivity.
  - apply (Hgeneral "Opening hours").
    repeat constructor.
Defined.

Lemma chunk_text_lookup self txt i c :
  chunk_text self txt !! i = Some c →
  ∃ piece, split_text self txt !! i = Some piece ∧
    chunk_id c = "chunk_" +:+ format_04d i ∧
    text c = piece ∧
    chunk_index c = Z.of_nat i ∧
    total_chunks c = Z.of_nat (length (split_text self txt)).
Proof.
  unfold chunk_text. rewrite list_lookup_imap.
  destruct (split_text self txt !! i) as [piece|] eqn:Hi; [|done].
  intros [= <-]. by exists piece.
Qed.

Lemma chunk_text_length self txt :
  length (chunk_text self txt) = length (split_text self txt).
Proof. unfold chunk_text. apply length_imap. Qed.

Lemma chunk_id_inj i j :
  "chunk_" +:+ format_04d i = "chunk_" +:+ format_04d j → i = j.
Proof. intros [= H]. by apply format_04d_inj. Qed.

(** C9. In one build every fragment has [0 <= chunk_index < total_chunks],
    [total_chunks] is the number of fragments produced, and two fragments
    with the same [chunk_id] are the same fragment at the same position:
    the ids are pairwise distinct. *)
Theorem chunk_text_positions_and_ids (self : TextChunker) (txt : string) :
  let produced := chunk_text self txt in
  (∀ c, c ∈ produced →
     (0 ≤ chunk_index c < total_chunks c)%Z ∧
     total_chunks c = Z.of_nat (length produced)) ∧
  NoDup (chunk_id <$> produced) ∧
  (∀ i j ci cj,
     produced !! i = Some ci → produced !! j = Some cj →
     chunk_id ci = chunk_id cj → i = j ∧ ci = cj).
Proof.
  intros produced.
  assert (∀ i j ci cj,
     produced !! i = Some ci → produced !! j = Some cj →
     chunk_id ci = chunk_id cj → i = j ∧ ci = cj) as Hdet.
  { intros i j ci cj Hi Hj Hid.
    destruct (chunk_text_lookup _ _ _ _ Hi) as (_ & _ & Hci & _).
    destruct (chunk_text_lookup _ _ _ _ Hj) as (_ & _ & Hcj & _).
    rewrite Hci, Hcj in Hid. apply chunk_id_inj in Hid as ->.
    split; [done | congruence]. }
  split; [|split; [|exact Hdet]].
  - intros c Hc. apply list_elem_of_lookup in Hc as [i Hi].
    destruct (chunk_text_lookup _ _ _ _ Hi) as (piece & Hp & _ & _ & Hidx & Htot).
    apply lookup_lt_Some in Hp.
    unfold produced. rewrite chunk_text_length. lia.
  - apply NoDup_alt. intros i j id.
    rewrite !list_lookup_fmap.
    destruct (produced !! i) as [ci|] eqn:Hi; [|done].
    destruct (produced !! j) as [cj|] eqn:Hj; [|done].
    simpl. intros [= Hci] [= Hcj].
    apply (Hdet i j ci cj Hi Hj). congruence.
Qed.

End ChunkerFacts.

(** ** The confidence scorer *)

Section ConfidenceFacts.
Import RagPipeline.
Local Open Scope Q_scope.

Lemma fold_left_Qplus l a : fold_left Qplus l a == a + fold_right Qplus 0 l.
Proof.
  revert a. induction l as [|x l IH]; intros a; simpl.
  - lra.
  - rewrite IH. lra.
Qed.

Lemma py_sum_fold_right l : py_sum l == fold_right Qplus 0 l.
Proof. unfold py_sum. rewrite fold_left_Qplus. lra. Qed.

Lemma py_max_min_clamp x : py_max 0 (py_min 1 x) == clamp x 0 1.
Proof.
  unfold py_max, py_min, clamp.
  destruct (Qle_bool 1 x) eqn:H1; destruct (Qle_bool 0 x) eqn:H0;
    destruct (Qle_bool x 1) eqn:Hx1;
    try (destruct (Qle_bool 1 0) eqn:H10; [by apply Qle_bool_iff in H10|]);
    try destruct (Qle_bool x 0) eqn:Hx0;
    rewrite ?Qle_bool_iff in *;
    repeat match goal with
           | H : Qle_bool _ _ = false |- _ =>
               apply not_true_iff_false in H; rewrite Qle_bool_iff in H
           end;
    lra.
Qed.

Lemma clamp_bounds x : 0 <= clamp x 0 1 <= 1.
Proof.
  unfold clamp.
  destruct (Qle_bool 0 x) eqn:H0; [destruct (Qle_bool x 1) eqn:H1|];
    rewrite ?Qle_bool_iff in *; lra.
Qed.


#[local] Instance clamp_proper : Proper (Qeq ==> Qeq ==> Qeq ==> Qeq) clamp.
Proof.
  intros x x' Hx lo lo' Hlo hi hi' Hhi. unfold clamp.
  rewrite (Qleb_comp _ _ Hlo _ _ Hx), (Qleb_comp _ _ Hx _ _ Hhi).
  destruct (Qle_bool lo' x'); [destruct (Qle_bool x' hi')|]; assumption.
Qed.

#[local] Instance round_half_even_proper : Proper (Qeq ==> eq) round_half_even.
Proof.
  intros x y Hxy. unfold round_half_even.
  rewrite (Qfloor_comp _ _ Hxy).
  assert (x - inject_Z (Qfloor y) == y - inject_Z (Qfloor y)) as -> by lra.
  reflexivity.
Qed.

Lemma py_round2_proper x y : x == y → py_round2 x = py_round2 y.
Proof. intros H. unfold py_round2. by rewrite H. Qed.


Lemma round_half_even_between x :
  (Qfloor x ≤ round_half_even x ≤ Qfloor x + 1)%Z.
Proof.
  unfold round_half_even.
  destruct (x - inject_Z (Qfloor x) ?= 1 # 2); [destruct (Z.even _)|..]; lia.
Qed.

Lemma round_half_even_mono x y :
  x <= y → (round_half_even x ≤ round_half_even y)%Z.
Proof.
  intros Hxy. pose proof (Qfloor_resp_le _ _ Hxy) as Hf.
  pose proof (round_half_even_between x). pose proof (round_half_even_between y).
  destruct (decide (Qfloor x = Qfloor y)) as [Heq|Hne]; [|lia].
  unfold round_half_even. rewrite Heq.
  destruct (Qcompare_spec (x - inject_Z (Qfloor y)) (1 # 2)) as [Hx|Hx|Hx];
    destruct (Qcompare_spec (y - inject_Z (Qfloor y)) (1 # 2)) as [Hy|Hy|Hy];
    try destruct (Z.even (Qfloor y)); try lia; lra.
Qed.

Lemma round_half_even_Z (n : Z) : round_half_even (inject_Z n) = n.
Proof.
  unfold round_half_even. rewrite Qfloor_Z.
  destruct (Qcompare_spec (inject_Z n - inject_Z n) (1 # 2)) as [H|H|H];
    [lra | done | lra].
Qed.




Lemma py_round2_unit x : 0 <= x <= 1 → 0 <= py_round2 x <= 1.
Proof.
  intros [H0 H1]. unfold py_round2.
  assert (0 ≤ round_half_even (x * 100) ≤ 100)%Z as [Hlo Hhi].
  { pose proof (round_half_even_mono 0 (x * 100)) as Hlo.
    pose proof (round_half_even_mono (x * 100) 100) as Hhi.
    rewrite (round_half_even_Z 0 : round_half_even 0 = 0%Z) in Hlo.
    rewrite (round_half_even_Z 100 : round_half_even 100 = 100%Z) in Hhi.
    split; [apply Hlo | apply Hhi]; lra. }
  split; unfold Qle; simpl; lia.
Qed.

Lemma calculate_confidence_nonempty ds :
  ds ≠ [] →
  _calculate_confidence ds = py_round2 (clamp (1 - mean ds) 0 1).
Proof.
  intros Hne. destruct ds as [|d ds]; [done|].
  unfold _calculate_confidence. apply py_round2_proper.
  rewrite py_max_min_clamp. unfold mean.
  by rewrite py_sum_fold_right.
Qed.

Lemma calculate_confidence_unit ds : 0 <= _calculate_confidence ds <= 1.
Proof.
  destruct ds as [|d ds]; [simpl; lra|].
  rewrite calculate_confidence_nonempty by done.
  apply py_round2_unit, clamp_bounds.
Qed.





End ConfidenceFacts.

(** ** The answer synthesizer and the query orchestrator *)

Section PipelineFacts.
Import Text RagPipeline.
Context `{E : Externals}.

Lemma embed_text_eq txt w :
  embed_text txt w = (encode txt, log (CallEncode txt) w).
Proof. reflexivity. Qed.

Lemma search_eq query_embedding k w :
  search query_embedding k w =
  (match collection_query (collection w) [query_embedding] k with
   | Returns results => Returns (search_results_of results)
   | Raises e => Raises e
   end,
   log (CallQuery [query_embedding] k) w).
Proof.
  unfold search, bind, query_collection, ret.
  by destruct (collection_query _ _ _).
Qed.

Lemma search_keeps query_embedding k w r w' :
  search query_embedding k w = (r, w') →
  collection w' = collection w ∧ remote w' = remote w ∧
  calls w' = (calls w ++ [CallQuery [query_embedding] k])%list.
Proof. rewrite search_eq. by intros [= _ <-]. Qed.

(** The state after the request of [generate_answer] was sent. *)
Lemma generate_answer_returns self question context max_tokens w :
  let request := chat_request self (_build_prompt question context) max_tokens in
  let reply := chat_completions_create (remote w) request in
  ∃ answer,
    generate_answer self question context max_tokens w
    = (Returns answer,
       {| collection := collection w; remote := reply.2;
          calls := calls w ++ [CallChat request] |}) ∧
    ∀ e, reply.1 = Raises e → answer = apology +:+ exn_msg e.
Proof.
  intros request reply.
  unfold generate_answer, try_except, bind, create.
  fold request. fold reply. destruct reply as [[response|e] remote'] eqn:Hr; simpl.
  - destruct response as [|[content|] rest]; simpl; eexists; (split; [done|]);
      intros e' [=].
  - eexists. split; [done|]. by intros e' [= ->].
Qed.

(** C10. Answer generation returns a string for every question, context
    and state of the service, and never raises; when the call to the
    service raises an exception, the string is "I apologize, but I
    encountered an error: " followed by the text of that exception. *)
Theorem generate_answer_total self question context max_tokens w :
  ∃ answer,
    (generate_answer self question context max_tokens w).1 = Returns answer ∧
    ∀ e remote',
      chat_completions_create (remote w)
        (chat_request self (_build_prompt question context) max_tokens)
      = (Raises e, remote') →
      answer = "I apologize, but I encountered an error: " +:+ exn_msg e.
Proof.
  destruct (generate_answer_returns self question context max_tokens w)
    as (answer & Heq & Hfail).
  exists answer. split; [by rewrite Heq|].
  intros e remote' Hr. apply Hfail. by rewrite Hr.
Qed.

(** [query] once the question is embedded and the index searched. *)
Lemma query_after_search self question w query_embedding w1 search_results w2 :
  embed_text question w = (Returns query_embedding, w1) →
  search query_embedding (top_k self) w1 = (Returns search_results, w2) →
  query self question w =
  match documents search_results with
  | [] =>
      (Returns (list_to_map
                  [("question", VStr question);
                   ("answer", VStr no_information);
                   ("sources", VStrList []);
                   ("confidence", VFloat 0)]), w2)
  | _ =>
      let '(answer, w3) :=
        generate_answer (llm_client self) question
          (_build_context search_results) 2000 w2 in
      match answer with
      | Returns answer =>
          (Returns (list_to_map
             [("question", VStr question);
              ("answer", VStr answer);
              ("sources", VStrList (documents search_results));
              ("metadata", VMetaList (metadatas search_results));
              ("distances", VFloatList (distances search_results));
              ("confidence",
               VFloat (_calculate_confidence (distances search_results)))]),
           w3)
      | Raises e => (Raises e, w3)
      end
  end.
Proof.
  intros Hembed Hsearch. unfold query, bind at 1. rewrite Hembed.
  unfold bind at 1. rewrite Hsearch.
  destruct (documents search_results); [done|].
  unfold bind, ret. by destruct (generate_answer _ _ _ _ _) as [[?|?] ?].
Qed.

Lemma query_raises_encode self question w e :
  encode question = Raises e →
  query self question w = (Raises e, log (CallEncode question) w).
Proof.
  intros He. unfold query, bind at 1. by rewrite embed_text_eq, He.
Qed.

Lemma query_raises_search self question w query_embedding e :
  encode question = Returns query_embedding →
  collection_query (collection w) [query_embedding] (top_k self) = Raises e →
  query self question w
  = (Raises e, log (CallQuery [query_embedding] (top_k self))
                 (log (CallEncode question) w)).
Proof.
  intros He Hq. unfold query, bind at 1. rewrite embed_text_eq, He.
  unfold bind at 1. rewrite search_eq. simpl. by rewrite Hq.
Qed.

(** [query] when fragments were retrieved: the six entries of its response
    and the state it leaves. *)
Lemma query_with_fragments self question w query_embedding w1 search_results w2 :
  embed_text question w = (Returns query_embedding, w1) →
  search query_embedding (top_k self) w1 = (Returns search_results, w2) →
  documents search_results ≠ [] →
  let request :=
    chat_request (llm_client self)
      (_build_prompt question (_build_context search_results)) 2000 in
  ∃ answer,
    query self question w =
    (Returns (list_to_map
       [("question", VStr question);
        ("answer", VStr answer);
        ("sources", VStrList (documents search_results));
        ("metadata", VMetaList (metadatas search_results));
        ("distances", VFloatList (distances search_results));
        ("confidence",
         VFloat (_calculate_confidence (distances search_results)))]),
     {| collection := collection w2;
        remote := (chat_completions_create (remote w2) request).2;
        calls := calls w2 ++ [CallChat request] |}).
Proof.
  intros Hembed Hsearch Hsome request.
  rewrite (query_after_search _ _ _ _ _ _ _ Hembed Hsearch).
  destruct (generate_answer_returns (llm_client self) question
              (_build_context search_results) 2000 w2) as (answer & -> & _).
  exists answer. by destruct (documents search_results).
Qed.

(** C2. When the search returns no fragment, [query] returns the fixed
    no-information answer with no sources and confidence [0.0]; the only
    calls made are the embedding of the question and the search, and the
    generative service is left as it was. *)
Theorem query_no_fragments self question w query_embedding w1 search_results w2 :
  embed_text question w = (Returns query_embedding, w1) →
  search query_embedding (top_k self) w1 = (Returns search_results, w2) →
  documents search_results = [] →
  ∃ response,
    query self question w = (Returns response, w2) ∧
    response !! "answer"
    = Some (VStr "I couldn't find relevant information to answer your question.") ∧
    response !! "sources" = Some (VStrList []) ∧
    response !! "confidence" = Some (VFloat 0) ∧
    remote w2 = remote w ∧
    calls w2 = (calls w ++ [CallEncode question;
                            CallQuery [query_embedding] (top_k self)])%list.
Proof.
  intros Hembed Hsearch Hnone.
  rewrite (query_after_search _ _ _ _ _ _ _ Hembed Hsearch), Hnone.
  eexists. split; [done|]. repeat split; try done.
  - apply search_keeps in Hsearch as (_ & -> & _).
    rewrite embed_text_eq in Hembed. by injection Hembed as _ <-.
  - apply search_keeps in Hsearch as (_ & _ & ->).
    rewrite embed_text_eq in Hembed. injection Hembed as _ <-.
    simpl. by rewrite <- app_assoc.
Qed.

(** C3. When the search returns at least one fragment and the call to the
    generative service raises, [query] still returns a response: its
    sources are the retrieved texts in search order, its confidence is the
    score of the search distances, and its answer is the apology carrying
    the text of the exception. *)
Theorem query_generation_failure
    self question w query_embedding w1 search_results w2 e remote' :
  embed_text question w = (Returns query_embedding, w1) →
  search query_embedding (top_k self) w1 = (Returns search_results, w2) →
  documents search_results ≠ [] →
  chat_completions_create (remote w2)
    (chat_request (llm_client self)
       (_build_prompt question (_build_context search_results)) 2000)
  = (Raises e, remote') →
  ∃ response w3,
    query self question w = (Returns response, w3) ∧
    response !! "sources" = Some (VStrList (documents search_results)) ∧
    response !! "confidence"
    = Some (VFloat (_calculate_confidence (distances search_results))) ∧
    response !! "answer"
    = Some (VStr ("I apologize, but I encountered an error: " +:+ exn_msg e)).
Proof.
  intros Hembed Hsearch Hsome Hfail.
  rewrite (query_after_search _ _ _ _ _ _ _ Hembed Hsearch).
  destruct (documents search_results) as [|doc docs] eqn:Hdocs; [done|].
  destruct (generate_answer_returns (llm_client self) question
              (_build_context search_results) 2000 w2) as (answer & -> & Ha).
  rewrite (Ha e) by (by rewrite Hfail).
  eexists _, _. split; [done|]. by repeat split.
Qed.

(** C5. The sources and the confidence of a query depend on the question
    and the index only: two runs on the same index give the same two
    values (or raise the same exception) whatever the generative service
    does, and a query leaves the index as it found it, so this holds for
    two queries in a row. *)
Theorem query_deterministic self question :
  (∀ w w', collection w = collection w' →
     sources_confidence (query self question w).1
     = sources_confidence (query self question w').1) ∧
  (∀ w, collection (query self question w).2 = collection w).
Proof.
  split.
  - intros w w' Hsame.
    destruct (encode question) as [emb|e] eqn:He;
      [|by rewrite !(query_raises_encode _ _ _ e)].
    destruct (collection_query (collection w) [emb] (top_k self))
      as [results|e] eqn:Hq.
    + assert (∀ v, collection v = collection w →
        sources_confidence (query self question v).1
        = Returns (Some (VStrList (documents (search_results_of results))),
                   Some (VFloat
                     match documents (search_results_of results) with
                     | [] => 0%Q
                     | _ => _calculate_confidence
                              (distances (search_results_of results))
                     end))) as Hobs.
      { intros v Hv.
        rewrite (query_after_search self question v emb
                   (log (CallEncode question) v) (search_results_of results)
                   (log (CallQuery [emb] (top_k self))
                      (log (CallEncode question) v)));
          [|by rewrite embed_text_eq, He
           |by rewrite search_eq; simpl; rewrite Hv, Hq].
        destruct (documents (search_results_of results)) as [|doc docs] eqn:Hd;
          [done|].
        destruct (generate_answer_returns (llm_client self) question
                    (_build_context (search_results_of results)) 2000
                    (log (CallQuery [emb] (top_k self))
                       (log (CallEncode question) v))) as (answer & -> & _).
        done. }
      by rewrite (Hobs w), (Hobs w').
    + rewrite (query_raises_search _ _ w emb e) by done.
      rewrite (query_raises_search _ _ w' emb e) by (by rewrite <- ?Hsame).
      done.
  - intros w.
    destruct (encode question) as [emb|e] eqn:He;
      [|by rewrite (query_raises_encode _ _ _ e)].
    destruct (collection_query (collection w) [emb] (top_k self))
      as [results|e] eqn:Hq;
      [|by rewrite (query_raises_search _ _ w emb e)].
    rewrite (query_after_search self question w emb
               (log (CallEncode question) w) (search_results_of results)
               (log (CallQuery [emb] (top_k self))
                  (log (CallEncode question) w)));
      [|by rewrite embed_text_eq, He
       |by rewrite search_eq; simpl; rewrite Hq].
    destruct (documents (search_results_of results)); [done|].
    destruct (generate_answer_returns (llm_client self) question
                (_build_context (search_results_of results)) 2000
                (log (CallQuery [emb] (top_k self))
                   (log (CallEncode question) w))) as (answer & -> & _).
    done.
Qed.

Lemma dom_four (a b c d : value) :
  dom (list_to_map [("question", a); ("answer", b); ("sources", c);
                    ("confidence", d)] : gmap string value)
  = {["question"; "answer"; "sources"; "confidence"]}.
Proof. rewrite dom_list_to_map_L. set_solver. Qed.

Lemma dom_six (a b c d e f : value) :
  dom (list_to_map [("question", a); ("answer", b); ("sources", c);
                    ("metadata", d); ("distances", e); ("confidence", f)]
         : gmap string value)
  = {["question"; "answer"; "sources"; "metadata"; "distances"; "confidence"]}.
Proof. rewrite dom_list_to_map_L. set_solver. Qed.

(** C6, as the code has it. When the question is embedded and the index
    searched without error, [query] returns a response with the fields
    [question] (the question asked), [answer] (a string), [sources] (the
    retrieved texts in search order) and [confidence] (between 0 and 1).
    These four are all its fields when nothing was retrieved; otherwise it
    has two more, [metadata] and [distances]. *)
Theorem query_response_fields self question w query_embedding w1 search_results w2 :
  embed_text question w = (Returns query_embedding, w1) →
  search query_embedding (top_k self) w1 = (Returns search_results, w2) →
  ∃ response w3 answer confidence,
    query self question w = (Returns response, w3) ∧
    response !! "question" = Some (VStr question) ∧
    response !! "answer" = Some (VStr answer) ∧
    response !! "sources" = Some (VStrList (documents search_results)) ∧
    response !! "confidence" = Some (VFloat confidence) ∧
    (0 <= confidence <= 1)%Q ∧
    dom response =
      match documents search_results with
      | [] => {["question"; "answer"; "sources"; "confidence"]}
      | _ => {["question"; "answer"; "sources"; "metadata"; "distances";
               "confidence"]}
      end.
Proof.
  intros Hembed Hsearch.
  rewrite (query_after_search _ _ _ _ _ _ _ Hembed Hsearch).
  destruct (documents search_results) as [|doc docs] eqn:Hdocs.
  - eexists _, _, _, _. split; [done|].
    do 4 (split; [reflexivity|]). split; [split; lra | apply dom_four].
  - destruct (generate_answer_returns (llm_client self) question
                (_build_context search_results) 2000 w2) as (answer & -> & _).
    eexists _, _, _, _. split; [done|].
    do 4 (split; [reflexivity|]).
    split; [apply calculate_confidence_unit | apply dom_six].
Qed.

(** C7, as the code has it. Neither [query] nor [search] checks its
    argument. Whatever the question, [query] starts by sending it to the
    encoder, and it raises only what the encoder or the collection query
    raised; [search] hands [k] to the collection query as it is and raises
    exactly when that query does. *)
Theorem query_search_no_argument_check self :
  (∀ question w, ∃ rest,
     calls (query self question w).2
     = (calls w ++ CallEncode question :: rest)%list) ∧
  (∀ question w e,
     (query self question w).1 = Raises e →
     encode question = Raises e ∨
     ∃ query_embedding,
       encode question = Returns query_embedding ∧
       collection_query (collection w) [query_embedding] (top_k self)
       = Raises e) ∧
  (∀ query_embedding k w,
     search query_embedding k w =
     (match collection_query (collection w) [query_embedding] k with
      | Returns results => Returns (search_results_of results)
      | Raises e => Raises e
      end,
      log (CallQuery [query_embedding] k) w)).
Proof.
  assert (∀ question w,
    (∃ e, encode question = Raises e ∧
          query self question w = (Raises e, log (CallEncode question) w)) ∨
    (∃ emb e, encode question = Returns emb ∧
          collection_query (collection w) [emb] (top_k self) = Raises e ∧
          query self question w
          = (Raises e, log (CallQuery [emb] (top_k self))
                         (log (CallEncode question) w))) ∨
    (∃ response w3 rest,
          query self question w = (Returns response, w3) ∧
          calls w3 = (calls w ++ CallEncode question :: rest)%list)) as Hcases.
  { intros question w.
    destruct (encode question) as [emb|e] eqn:He;
      [|left; exists e; split; [done | by apply query_raises_encode]].
    right.
    destruct (collection_query (collection w) [emb] (top_k self))
      as [results|e] eqn:Hq;
      [|left; exists emb, e; repeat split; try done;
        by apply query_raises_search].
    right.
    rewrite (query_after_search self question w emb
               (log (CallEncode question) w) (search_results_of results)
               (log (CallQuery [emb] (top_k self))
                  (log (CallEncode question) w)));
      [|by rewrite embed_text_eq, He
       |by rewrite search_eq; simpl; rewrite Hq].
    destruct (documents (search_results_of results)).
    - eexists _, _, _. split; [done|]. simpl. by rewrite <- app_assoc.
    - destruct (generate_answer_returns (llm_client self) question
                  (_build_context (search_results_of results)) 2000
                  (log (CallQuery [emb] (top_k self))
                     (log (CallEncode question) w))) as (answer & -> & _).
      eexists _, _, _. split; [done|]. simpl. by rewrite <- !app_assoc. }
  split; [|split].
  - intros question w.
    destruct (Hcases question w)
      as [(e & _ & ->)|[(emb & e & _ & _ & ->)|(r & w3 & rest & -> & Hc)]].
    + by exists [].
    + eexists. simpl. by rewrite <- app_assoc.
    + by exists rest.
  - intros question w e Hraise.
    destruct (Hcases question w)
      as [(e' & He & Hq)|[(emb & e' & He & Hc & Hq)|(r & w3 & rest & Hq & _)]];
      rewrite Hq in Hraise; simpl in Hraise.
    + injection Hraise as <-. by left.
    + injection Hraise as <-. right. by exists emb.
    + done.
  - intros. apply search_eq.
Qed.

End PipelineFacts.

(** ** The program run on the stand-ins *)

Section Runs.
Import Text DataProcessor RagPipeline Fixture.

Lemma chunk_text_positions_and_ids_witness :
  second_half ∈ chunk_text halves "Home loan rate is 8.5%. Personal loan" ∧
  (0 ≤ chunk_index second_half < total_chunks second_half)%Z ∧
  total_chunks second_half
  = Z.of_nat (length (chunk_text halves "Home loan rate is 8.5%. Personal loan")).
Proof.
  assert (second_half ∈ chunk_text halves "Home loan rate is 8.5%. Personal loan")
    as Hin by apply list_elem_of_further, list_elem_of_here.
  split; [exact Hin|].
  exact (proj1 (chunk_text_positions_and_ids halves
                  "Home loan rate is 8.5%. Personal loan") second_half Hin).
Defined.

Lemma generate_answer_total_witness :
  ∃ answer,
    (generate_answer (E := scripted) (llm_client pipeline)
       "What is the interest rate?" "[Source 1]" 2000 unreachable).1
    = Returns answer ∧
    answer = "I apologize, but I encountered an error: Connection error.".
Proof.
  destruct (generate_answer_total (E := scripted) (llm_client pipeline)
              "What is the interest rate?" "[Source 1]" 2000 unreachable)
    as (answer & Hret & Hfail).
  exists answer. split; [exact Hret|].
  apply (Hfail (Exception "APIConnectionError" "Connection error.") []).
  reflexivity.
Defined.

Lemma query_no_fragments_witness :
  ∃ response w2,
    query (E := scripted) pipeline "What is the interest rate?" empty_index
    = (Returns response, w2) ∧
    response !! "answer"
    = Some (VStr "I couldn't find relevant information to answer your question.") ∧
    response !! "sources" = Some (VStrList []) ∧
    response !! "confidence" = Some (VFloat 0) ∧
    remote w2 = remote empty_index ∧
    calls w2 = [CallEncode "What is the interest rate?"; CallQuery [[26%Q]] 3].
Proof.
  edestruct (query_no_fragments (E := scripted) pipeline
               "What is the interest rate?" empty_index)
    as (response & H); [reflexivity | reflexivity | reflexivity |].
  exists response. eexists. exact H.
Defined.

Lemma query_generation_failure_witness :
  ∃ response w3,
    query (E := scripted) pipeline "What is the home loan interest rate?"
      unreachable
    = (Returns response, w3) ∧
    response !! "sources"
    = Some (VStrList ["Home loan rate is 8.5%.";
                      "Personal loan tenure is 5 years."]) ∧
    response !! "confidence" = Some (VFloat (62 # 100)) ∧
    response !! "answer"
    = Some (VStr "I apologize, but I encountered an error: Connection error.").
Proof.
  edestruct (query_generation_failure (E := scripted) pipeline
               "What is the home loan interest rate?" unreachable)
    as (response & w3 & H);
    [reflexivity | reflexivity | | reflexivity |]; [discriminate|].
  exists response, w3. exact H.
Defined.

Lemma query_deterministic_witness :
  sources_confidence
    (query (E := scripted) pipeline "What is the interest rate?" serving).1
  = sources_confidence
      (query (E := scripted) pipeline "What is the interest rate?" unreachable).1.
Proof.
  apply (proj1 (query_deterministic (E := scripted) pipeline
                  "What is the interest rate?")).
  reflexivity.
Defined.

Lemma query_response_fields_witness :
  ∃ response w3 answer confidence,
    query (E := scripted) pipeline "What is the interest rate?" serving
    = (Returns response, w3) ∧
    response !! "question" = Some (VStr "What is the interest rate?") ∧
    response !! "answer" = Some (VStr answer) ∧
    response !! "sources"
    = Some (VStrList ["Home loan rate is 8.5%.";
                      "Personal loan tenure is 5 years."]) ∧
    response !! "confidence" = Some (VFloat confidence) ∧
    (0 <= confidence <= 1)%Q ∧
    dom response
    = {["question"; "answer"; "sources"; "metadata"; "distances"; "confidence"]}.
Proof.
  edestruct (query_response_fields (E := scripted) pipeline
               "What is the interest rate?" serving)
    as (response & w3 & answer & confidence & H); [reflexivity | reflexivity |].
  exists response, w3, answer, confidence. exact H.
Defined.

(** C6 as stated fails: with two fragments retrieved the response has the
    fields [metadata] and [distances] besides the four of the claim. *)
Lemma query_response_has_more_fields :
  ∃ response w3,
    query (E := scripted) pipeline "What is the interest rate?" serving
    = (Returns response, w3) ∧
    response !! "metadata"
    = Some (VMetaList
              [{| md_loan_type := "Home Loan"; md_chunk_index := 0 |};
               {| md_loan_type := "Personal Loan"; md_chunk_index := 1 |}]) ∧
    response !! "distances" = Some (VFloatList [1 # 4; 1 # 2]) ∧
    dom response ≠ {["question"; "answer"; "sources"; "confidence"]}.
Proof.
  edestruct (query_with_fragments (E := scripted) pipeline
               "What is the interest rate?" serving) as (answer & Hrun);
    [reflexivity | reflexivity | discriminate |].
  eexists _, _. split; [exact Hrun|].
  split; [reflexivity|]. split; [reflexivity|].
  rewrite dom_six. intros Hdom.
  assert ("distances" ∈ ({["question"; "answer"; "sources"; "confidence"]}
                          : gset string)) as Hin.
  { rewrite <- Hdom. set_solver. }
  set_solver.
Qed.

Lemma query_search_no_argument_check_witness :
  encode (Externals := scripted) ""
  = Raises (Exception "ValueError"
              "Number of requested results cannot be negative, or zero.") ∨
  ∃ query_embedding,
    encode (Externals := scripted) "" = Returns query_embedding ∧
    collection_query (Externals := scripted) two_fragments [query_embedding] 0
    = Raises (Exception "ValueError"
                "Number of requested results cannot be negative, or zero.").
Proof.
  apply (proj1 (proj2 (query_search_no_argument_check (E := scripted)
                         asking_none)) "" serving).
  reflexivity.
Defined.

(** C7 as stated fails: the empty question raises nothing. It is embedded,
    the index is searched and the generative service is called (its script
    is consumed), and the caller gets a response. *)
Lemma query_accepts_empty_question :
  ∃ response w3,
    query (E := scripted) pipeline "" serving = (Returns response, w3) ∧
    response !! "question" = Some (VStr "") ∧
    response !! "sources"
    = Some (VStrList ["Home loan rate is 8.5%.";
                      "Personal loan tenure is 5 years."]) ∧
    is_chat <$> calls w3 = [false; false; true] ∧
    remote w3 = [] ∧
    remote serving = [Returns [Some " The rate is 8.5%. "]].
Proof.
  edestruct (query_with_fragments (E := scripted) pipeline "" serving)
    as (answer & Hrun); [reflexivity | reflexivity | discriminate |].
  eexists _, _. split; [exact Hrun|].
  repeat split.
Qed.

End Runs.

(** * Further properties of the code *)

(** ** More on the confidence scorer *)

Section ConfidenceMore.
Import RagPipeline.
Local Open Scope Q_scope.










(** X1. Whatever the distances (negative ones included), the score is a
    whole number of hundredths between 0 and 1. *)
Theorem calculate_confidence_bounded (distances : list Q) :
  0 <= _calculate_confidence distances <= 1 ∧
  ∃ n : Z, (0 ≤ n ≤ 100)%Z ∧ _calculate_confidence distances == n # 100.
Proof.
  split; [apply calculate_confidence_unit|].
  destruct distances as [|d ds]; [by exists 0%Z|].
  rewrite calculate_confidence_nonempty by done.
  pose proof (py_round2_unit _ (clamp_bounds (1 - mean (d :: ds)))) as [Hlo Hhi].
  unfold py_round2 in *. eexists. split; [|reflexivity].
  unfold Qle in Hlo, Hhi. simpl in Hlo, Hhi. lia.
Qed.



End ConfidenceMore.

(** ** More on the chunker *)

Section ChunkerMore.
Import Text DataProcessor.






(** X3. The chunker neither drops, adds nor reorders a piece: the texts of
    the fragments are the pieces of the splitter in order, each labelled by
    the label of its own text and numbered by its position. *)
Theorem chunk_text_keeps_pieces (self : TextChunker) (txt : string) :
  text <$> chunk_text self txt = split_text self txt ∧
  loan_type <$> chunk_text self txt
  = _extract_loan_type_from_chunk <$> split_text self txt ∧
  chunk_index <$> chunk_text self txt
  = Z.of_nat <$> seq 0 (length (split_text self txt)).
Proof.
  unfold chunk_text. generalize (length (split_text self txt)) at 1 as total.
  intros total. repeat split; apply list_eq; intros i;
    rewrite !list_lookup_fmap, list_lookup_imap;
    destruct (split_text self txt !! i) as [piece|] eqn:Hi; simpl; try done.
  - rewrite lookup_seq_lt by (by apply lookup_lt_Some in Hi). done.
  - rewrite lookup_seq_ge by (by apply lookup_ge_None in Hi). done.
Qed.


Lemma first_match_priority rules default txt i keywords label :
  rules !! i = Some (keywords, label) →
  rule_matches keywords txt = true →
  ∃ j keywords',
    (j ≤ i)%nat ∧
    rules !! j = Some (keywords', first_match rules default txt) ∧
    rule_matches keywords' txt = true.
Proof.
  revert i. induction rules as [|[kws lbl] rules IH]; intros i Hi Hm; [done|].
  cbn [first_match]. destruct (rule_matches kws txt) eqn:Hk.
  - exists 0%nat, kws. split; [lia | done].
  - destruct i as [|i]; simpl in Hi; [congruence|].
    destruct (IH i Hi Hm) as (j & kws' & Hj & Hl & Hm').
    exists (S j), kws'. split; [lia | done].
Qed.

Lemma first_match_label rules default txt :
  first_match rules default txt = default ∨
  first_match rules default txt ∈ rules.*2.
Proof.
  induction rules as [|[kws lbl] rules IH]; [by left|].
  cbn [first_match]. destruct (rule_matches kws txt).
  - right. simpl. left.
  - destruct IH as [IH|IH]; [by left | right; simpl; by right].
Qed.

(** X5. The label of a fragment is always one of the nine labels of the
    vocabulary, and a keyword occurring in the lowercased fragment bounds
    the label: it is the label of that keyword's rule or of a rule before
    it in the order of the code. *)
Theorem extract_loan_type_vocabulary (chunk : string) :
  _extract_loan_type_from_chunk chunk ∈
    ["Home Loan"; "Vehicle Loan"; "Personal Loan"; "Education Loan";
     "Gold Loan"; "Agriculture Loan"; "MSME Loan"; "Interest Rates";
     "General"] ∧
  ∀ i keywords label kw,
    label_rules !! i = Some (keywords, label) →
    kw ∈ keywords →
    contains kw (lower chunk) = true →
    ∃ j keywords',
      (j ≤ i)%nat ∧
      label_rules !! j = Some (keywords', _extract_loan_type_from_chunk chunk).
Proof.
  rewrite extract_loan_type_rules. split.
  - pose proof (first_match_label label_rules "General" (lower chunk)) as H.
    generalize dependent (first_match label_rules "General" (lower chunk)).
    intros lbl [->|H]; [repeat constructor|].
    simpl in H.
    repeat (apply elem_of_cons in H as [->|H]; [repeat constructor|]).
    by apply elem_of_nil in H.
  - intros i keywords label kw Hi Hkw Hc.
    destruct (first_match_priority label_rules "General" (lower chunk)
                i keywords label Hi) as (j & kws' & Hj & Hl & _).
    { unfold rule_matches. apply existsb_exists. exists kw.
      split; [by apply list_elem_of_In | done]. }
    by exists j, kws'.
Qed.

End ChunkerMore.

(** ** More on the context, the prompt and the calls of a query *)

Section StringFacts.
Import Text.

Lemma string_app_cons (x : ascii) (a b : string) :
  String x a +:+ b = String x (a +:+ b).
Proof. reflexivity. Qed.

Lemma string_app_assoc (a b c : string) : (a +:+ b) +:+ c = a +:+ (b +:+ c).
Proof.
  induction a as [|x a IH]; [done|]. by rewrite !string_app_cons, IH.
Qed.

Lemma string_app_nil_r (a : string) : a +:+ "" = a.
Proof.
  induction a as [|x a IH]; [done|]. by rewrite string_app_cons, IH.
Qed.

Lemma contains_infix needle pre mid post :
  contains needle mid = true → contains needle (pre +:+ mid +:+ post) = true.
Proof.
  intros H. apply contains_inv in H as (a & b & ->).
  rewrite !string_app_assoc, <- (string_app_assoc pre a).
  apply contains_app.
Qed.

Lemma contains_self s : contains s s = true.
Proof.
  pose proof (contains_app s "" "") as H. simpl in H.
  by rewrite string_app_nil_r in H.
Qed.

Lemma contains_skip needle pre s :
  contains needle s = true → contains needle (pre +:+ s) = true.
Proof.
  intros H. pose proof (contains_infix needle pre s "" H) as H'.
  by rewrite string_app_nil_r in H'.
Qed.

Lemma contains_app_l needle s post :
  contains needle s = true → contains needle (s +:+ post) = true.
Proof. intros H. apply (contains_infix needle "" s post H). Qed.

Lemma contains_prefix needle post : contains needle (needle +:+ post) = true.
Proof. apply (contains_app needle "" post). Qed.

Lemma join_cons sep p q rest :
  join sep (p :: q :: rest) = p +:+ sep +:+ join sep (q :: rest).
Proof. reflexivity. Qed.

Lemma join_lookup sep parts i p :
  parts !! i = Some p → ∃ pre post, join sep parts = pre +:+ p +:+ post.
Proof.
  revert i. induction parts as [|q parts IH]; intros i Hi; [done|].
  destruct i as [|i]; simpl in Hi.
  - injection Hi as ->. destruct parts as [|r parts].
    + exists "", "". simpl. by rewrite string_app_nil_r.
    + exists "", (sep +:+ join sep (r :: parts)). by rewrite join_cons.
  - destruct parts as [|r parts]; [done|].
    destruct (IH i Hi) as (pre & post & Hj).
    exists (q +:+ sep +:+ pre), post.
    rewrite join_cons, Hj, !string_app_assoc. done.
Qed.

End StringFacts.

Section PipelineMore.
Import Text RagPipeline.
Context `{E : Externals}.

Lemma build_context_lookup (search_results : SearchResults) i doc :
  documents search_results !! i = Some doc →
  ∃ pre post,
    _build_context search_results
    = pre +:+ ("[Source " +:+ str_of_nat (S i) +:+ "]" +:+ nl +:+ doc +:+ nl)
      +:+ post.
Proof.
  intros Hi. unfold _build_context. apply (join_lookup nl _ i).
  by rewrite list_lookup_imap, Hi.
Qed.

(** X6. The context of no document is the empty string; otherwise every
    retrieved document occurs in the context as a block of its own: the
    line "[Source n]" with its rank n counted from 1, then the text, then
    a line break. *)
Theorem build_context_blocks (search_results : SearchResults) :
  (documents search_results = [] → _build_context search_results = "") ∧
  ∀ i doc,
    documents search_results !! i = Some doc →
    ∃ pre post,
      _build_context search_results
      = pre +:+ ("[Source " +:+ str_of_nat (S i) +:+ "]" +:+ nl +:+ doc +:+ nl)
        +:+ post.
Proof.
  split; [unfold _build_context; by intros ->|].
  apply build_context_lookup.
Qed.

(** X7. The prompt sent for a question carries the question after
    "Question: " and the whole context, hence the labelled block of every
    retrieved document. *)
Theorem build_prompt_carries (question : string) (search_results : SearchResults) :
  let prompt := _build_prompt question (_build_context search_results) in
  contains ("Question: " +:+ question +:+ nl) prompt = true ∧
  contains (_build_context search_results) prompt = true ∧
  ∀ i doc,
    documents search_results !! i = Some doc →
    contains ("[Source " +:+ str_of_nat (S i) +:+ "]" +:+ nl +:+ doc +:+ nl)
      prompt = true.
Proof.
  intros prompt.
  assert (∀ needle, contains needle (_build_context search_results) = true →
                    contains needle prompt = true) as Hctx.
  { intros needle Hn. unfold prompt, _build_prompt.
    do 5 apply contains_skip. by apply contains_app_l. }
  split; [|split].
  - unfold prompt, _build_prompt.
    do 8 apply contains_skip.
    rewrite <- (string_app_assoc question nl),
      <- (string_app_assoc "Question: " (question +:+ nl)).
    apply contains_prefix.
  - apply Hctx, contains_self.
  - intros i doc Hi.
    destruct (build_context_lookup search_results i doc Hi)
      as (pre & post & Heq).
    apply Hctx. rewrite Heq. apply contains_app.
Qed.

(** X8. A query makes at most three outbound calls and never repeats or
    retries one: it embeds the question; if that returned, it queries the
    collection once with that embedding and the configured [top_k]; and
    only if that returned at least one document it sends one chat request,
    for the prompt built from the question and those documents. *)
Theorem query_calls self question w :
  calls (query self question w).2 =
  (calls w ++
   match encode question with
   | Raises _ => [CallEncode question]
   | Returns query_embedding =>
       match collection_query (collection w) [query_embedding] (top_k self) with
       | Raises _ =>
           [CallEncode question; CallQuery [query_embedding] (top_k self)]
       | Returns results =>
           match documents (search_results_of results) with
           | [] =>
               [CallEncode question; CallQuery [query_embedding] (top_k self)]
           | _ =>
               [CallEncode question;
                CallQuery [query_embedding] (top_k self);
                CallChat
                  (chat_request (llm_client self)
                     (_build_prompt question
                        (_build_context (search_results_of results))) 2000)]
           end
       end
   end)%list.
Proof.
  destruct (encode question) as [emb|e] eqn:He;
    [|by rewrite (query_raises_encode _ _ _ e)].
  destruct (collection_query (collection w) [emb] (top_k self))
    as [results|e] eqn:Hq.
  - assert (embed_text question w
            = (Returns emb, log (CallEncode question) w)) as Hembed
      by (by rewrite embed_text_eq, He).
    assert (search emb (top_k self) (log (CallEncode question) w)
            = (Returns (search_results_of results),
               log (CallQuery [emb] (top_k self))
                 (log (CallEncode question) w))) as Hsearch
      by (by rewrite search_eq; simpl; rewrite Hq).
    destruct (documents (search_results_of results)) as [|doc docs] eqn:Hd.
    + rewrite (query_after_search _ _ _ _ _ _ _ Hembed Hsearch), Hd.
      simpl. by rewrite <- app_assoc.
    + destruct (query_with_fragments _ _ _ _ _ _ _ Hembed Hsearch)
        as (answer & ->); [by rewrite Hd|].
      simpl. by rewrite <- !app_assoc.
  - rewrite (query_raises_search _ _ w emb e) by done.
    simpl. by rewrite <- app_assoc.
Qed.

(** X9. What [generate_answer] makes of a reply. The text of the first
    choice comes back stripped of surrounding white space and the other
    choices are ignored; a reply with no choice, or whose first choice has
    no text, gives the apology with the message of the [IndexError] or
    [AttributeError] raised on the way. In every case one request is
    logged and the service moves to its next state. *)
Theorem generate_answer_replies self question context max_tokens w reply remote' :
  let request := chat_request self (_build_prompt question context) max_tokens in
  chat_completions_create (remote w) request = (Returns reply, remote') →
  generate_answer self question context max_tokens w =
  (Returns
     match reply with
     | Some content :: _ => strip content
     | None :: _ =>
         "I apologize, but I encountered an error: " +:+
         "'NoneType' object has no attribute 'strip'"
     | [] => "I apologize, but I encountered an error: list index out of range"
     end,
   {| collection := collection w; remote := remote';
      calls := calls w ++ [CallChat request] |}).
Proof.
  intros request Hreply.
  unfold generate_answer, try_except, bind, create. fold request.
  rewrite Hreply. by destruct reply as [|[content|] rest].
Qed.

End PipelineMore.

(** ** The shape of strings under [strip], [split] and [join] *)

Section ShapeFacts.
Import Text TextShape.

Lemma head_char_app a b :
  head_char (a +:+ b) = match head_char a with Some c => Some c | None => head_char b end.
Proof. by destruct a. Qed.

Lemma last_char_is_Some c t : is_Some (last_char (String c t)).
Proof.
  revert c. induction t as [|d t IH]; intros c; [by eexists|].
  change (is_Some (last_char (String d t))). apply IH.
Qed.

Lemma last_char_cons c t :
  last_char (String c t) = match last_char t with Some x => Some x | None => Some c end.
Proof.
  destruct t as [|d t]; [done|].
  destruct (last_char_is_Some d t) as [x Hx]. rewrite Hx.
  change (last_char (String d t) = Some x). done.
Qed.

Lemma last_char_None s : last_char s = None → s = "".
Proof.
  destruct s as [|c t]; [done|]. rewrite last_char_cons.
  by destruct (last_char t).
Qed.

Lemma last_char_app a b :
  last_char (a +:+ b) = match last_char b with Some c => Some c | None => last_char a end.
Proof.
  induction a as [|x a IH].
  - simpl. destruct (last_char b) eqn:E; [done|]. by rewrite (last_char_None _ E).
  - rewrite string_app_cons, !last_char_cons, IH.
    by destruct (last_char b), (last_char a).
Qed.

Lemma starts_with_space_lstrip s : starts_with_space (lstrip s) = false.
Proof.
  induction s as [|c t IH]; [done|]. simpl.
  destruct (is_space c) eqn:Hc; [done|].
  unfold starts_with_space. simpl. by rewrite Hc.
Qed.

Lemma lstrip_id s : starts_with_space s = false → lstrip s = s.
Proof.
  destruct s as [|c t]; [done|]. unfold starts_with_space. simpl.
  by intros ->.
Qed.

Lemma rstrip_cons c t :
  rstrip (String c t) =
  match rstrip t with
  | "" => if is_space c then "" else String c ""
  | t' => String c t'
  end.
Proof. reflexivity. Qed.

Lemma ends_with_space_cons c t :
  ends_with_space (String c t)
  = match t with "" => is_space c | _ => ends_with_space t end.
Proof.
  unfold ends_with_space. rewrite last_char_cons.
  destruct t as [|d t]; [done|].
  destruct (last_char (String d t)) eqn:E; [done|].
  by apply last_char_None in E.
Qed.

Lemma ends_with_space_rstrip s : ends_with_space (rstrip s) = false.
Proof.
  induction s as [|c t IH]; [done|]. rewrite rstrip_cons.
  destruct (rstrip t) as [|d t'] eqn:Ht.
  - destruct (is_space c) eqn:Hc; [done|].
    by rewrite ends_with_space_cons.
  - by rewrite ends_with_space_cons.
Qed.

Lemma rstrip_id s : ends_with_space s = false → rstrip s = s.
Proof.
  induction s as [|c t IH]; [done|].
  rewrite ends_with_space_cons, rstrip_cons. destruct t as [|d t].
  - simpl. by intros ->.
  - intros H. by rewrite (IH H).
Qed.

Lemma head_char_rstrip s :
  rstrip s = "" ∨ head_char (rstrip s) = head_char s.
Proof.
  destruct s as [|c t]; [by left|]. rewrite rstrip_cons.
  destruct (rstrip t); [destruct (is_space c)|]; auto.
Qed.

Lemma strip_shape s :
  starts_with_space (strip s) = false ∧ ends_with_space (strip s) = false.
Proof.
  unfold strip. split; [|apply ends_with_space_rstrip].
  pose proof (starts_with_space_lstrip s) as Hl.
  destruct (head_char_rstrip (lstrip s)) as [->|Hh]; [done|].
  unfold starts_with_space in *. by rewrite Hh.
Qed.

Lemma strip_id s :
  starts_with_space s = false → ends_with_space s = false → strip s = s.
Proof. intros H1 H2. unfold strip. by rewrite (lstrip_id _ H1), (rstrip_id _ H2). Qed.

Lemma lstrip_suffix s : ∃ a, s = a +:+ lstrip s.
Proof.
  induction s as [|c t [a IH]]; [by exists ""|]. simpl.
  destruct (is_space c).
  - exists (String c a). by rewrite string_app_cons, <- IH.
  - by exists "".
Qed.

Lemma rstrip_prefix s : ∃ b, s = rstrip s +:+ b.
Proof.
  induction s as [|c t [b IH]]; [by exists ""|]. rewrite rstrip_cons.
  destruct (rstrip t) as [|d t'] eqn:Ht.
  - destruct (is_space c).
    + by exists (String c t).
    + exists b. rewrite string_app_cons. simpl in IH. by rewrite <- IH.
  - exists b. by rewrite string_app_cons, <- IH.
Qed.

Lemma strip_infix s : ∃ a b, s = a +:+ strip s +:+ b.
Proof.
  destruct (lstrip_suffix s) as [a Ha].
  destruct (rstrip_prefix (lstrip s)) as [b Hb].
  exists a, b. unfold strip. by rewrite <- Hb.
Qed.


Lemma nonspace_cons c t :
  nonspace (String c t) = if is_space c then nonspace t else String c (nonspace t).
Proof. reflexivity. Qed.

Lemma nonspace_lstrip s : nonspace (lstrip s) = nonspace s.
Proof.
  induction s as [|c t IH]; [done|]. simpl.
  destruct (is_space c) eqn:Hc; [done|]. simpl. by rewrite Hc.
Qed.

Lemma nonspace_rstrip s : nonspace (rstrip s) = nonspace s.
Proof.
  induction s as [|c t IH]; [done|]. rewrite rstrip_cons.
  destruct (rstrip t) as [|d t'] eqn:Ht.
  - simpl in IH. simpl. rewrite <- IH.
    destruct (is_space c) eqn:Hc; [done|]. simpl. by rewrite Hc.
  - rewrite (nonspace_cons c (String d t')), (nonspace_cons c t), IH. done.
Qed.

Lemma nonspace_strip s : nonspace (strip s) = nonspace s.
Proof. unfold strip. by rewrite nonspace_rstrip, nonspace_lstrip. Qed.

Lemma nonspace_empty_trimmed s :
  starts_with_space s = false → nonspace s = "" → s = "".
Proof.
  destruct s as [|c t]; [done|]. unfold starts_with_space. simpl.
  by intros ->.
Qed.

End ShapeFacts.

(** ** The cleaner *)

Section CleanerFacts.
Import Text TextShape RagPipeline Cleaner.



Lemma no_pair_cons c a t :
  no_pair c (String a t)
  = negb (bool_decide (a = c) && bool_decide (head_char t = Some c)) && no_pair c t.
Proof. reflexivity. Qed.

Lemma no_pair_app c a b :
  no_pair c (a +:+ b)
  = no_pair c a && no_pair c b
    && negb (bool_decide (last_char a = Some c) && bool_decide (head_char b = Some c)).
Proof.
  induction a as [|x a IH].
  - simpl. by rewrite andb_true_r.
  - rewrite string_app_cons, !no_pair_cons, IH, head_char_app, last_char_cons.
    destruct a as [|y a].
    + simpl. destruct (head_char b) as [h|]; simpl;
        repeat case_bool_decide; simplify_eq; simpl;
        rewrite ?andb_true_r, ?andb_false_r; try done; congruence.
    + destruct (last_char_is_Some y a) as [l Hl]. rewrite Hl. simpl.
      by rewrite !andb_assoc.
Qed.

Lemma no_pair_infix c a s b :
  no_pair c (a +:+ s +:+ b) = true → no_pair c s = true.
Proof.
  rewrite !no_pair_app. intros H.
  repeat (apply andb_true_iff in H as [H ?]); try done.
  by repeat match goal with
            | H : _ && _ = true |- _ => apply andb_true_iff in H as [? ?]
            end.
Qed.

Lemma no_pair_contains c s :
  no_pair c s = true → contains (String c (String c "")) s = false.
Proof.
  induction s as [|a t IH]; [done|]. rewrite no_pair_cons.
  intros [Hh Ht]%andb_true_iff. simpl contains.
  rewrite (IH Ht), orb_false_r.
  destruct t as [|b t]; simpl in *.
  - by destruct (decide (c = a)).
  - destruct (decide (c = a)) as [->|]; [|done].
    destruct (decide (a = b)) as [->|]; [|done].
    rewrite !bool_decide_eq_true_2 in Hh by done. done.
Qed.

Lemma has_char_app c a b : has_char c (a +:+ b) = has_char c a || has_char c b.
Proof.
  induction a as [|x a IH]; [done|].
  rewrite string_app_cons. simpl. by rewrite IH, orb_assoc.
Qed.

Lemma has_char_infix c a s b :
  has_char c (a +:+ s +:+ b) = false → has_char c s = false.
Proof.
  rewrite !has_char_app. intros H.
  apply orb_false_iff in H as [_ H]. by apply orb_false_iff in H as [H _].
Qed.


Lemma head_collapse_spaces_in_run s :
  head_char (collapse_spaces_from true s) ≠ Some space.
Proof.
  induction s as [|c t IH]; [done|]. simpl.
  destruct (decide (c = space)); [done|]. simpl. congruence.
Qed.

Lemma no_pair_collapse_spaces in_run s :
  no_pair space (collapse_spaces_from in_run s) = true.
Proof.
  revert in_run. induction s as [|c t IH]; intros in_run; [done|]. simpl.
  destruct (decide (c = space)) as [->|Hc].
  - destruct in_run; [apply IH|].
    rewrite no_pair_cons, IH, andb_true_r.
    rewrite (bool_decide_eq_false_2 (head_char _ = _))
      by apply head_collapse_spaces_in_run.
    by rewrite andb_false_r.
  - rewrite no_pair_cons, IH, andb_true_r.
    by rewrite (bool_decide_eq_false_2 (c = space)).
Qed.

Lemma collapse_spaces_from_id in_run s :
  (in_run = true → head_char s ≠ Some space) →
  no_pair space s = true →
  collapse_spaces_from in_run s = s.
Proof.
  revert in_run. induction s as [|c t IH]; intros in_run Hrun Hs; [done|].
  rewrite no_pair_cons in Hs. apply andb_true_iff in Hs as [Hh Ht]. simpl.
  destruct (decide (c = space)) as [->|Hc].
  - destruct in_run; [by destruct Hrun|].
    rewrite IH; [done| |done].
    intros _ Hsp. by rewrite !bool_decide_eq_true_2 in Hh.
  - rewrite IH; done.
Qed.



Lemma head_collapse_newlines s :
  head_char (collapse_newlines_from 0 s) = head_char s.
Proof.
  destruct s as [|c t]; [done|]. simpl.
  destruct (decide (c = newline)) as [->|Hc]; [|done].
  generalize 0%nat. revert t. induction t as [|d t IH]; intros run; [done|].
  simpl. destruct (decide (d = newline)); [apply IH | done].
Qed.

Lemma no_pair_newlines c n : c ≠ newline → no_pair c (newlines n) = true.
Proof.
  intros Hc. induction n as [|n IH]; [done|].
  simpl newlines. rewrite no_pair_cons, IH, andb_true_r.
  by rewrite (bool_decide_eq_false_2 (newline = c)).
Qed.

Lemma last_char_newlines c n : c ≠ newline → last_char (newlines n) ≠ Some c.
Proof.
  intros Hc. induction n as [|n IH]; [done|].
  simpl newlines. rewrite last_char_cons.
  destruct (last_char (newlines n)); congruence.
Qed.

Lemma no_pair_collapse_newlines run s :
  no_pair space s = true →
  no_pair space (collapse_newlines_from run s) = true.
Proof.
  revert run. induction s as [|c t IH]; intros run Hs; simpl.
  - by apply no_pair_newlines.
  - rewrite no_pair_cons in Hs. apply andb_true_iff in Hs as [Hh Ht].
    destruct (decide (c = newline)) as [->|Hc]; [by apply IH|].
    rewrite no_pair_app, no_pair_newlines by done.
    rewrite no_pair_cons, head_collapse_newlines, Hh, IH by done.
    rewrite (bool_decide_eq_false_2 (last_char _ = _))
      by (by apply last_char_newlines).
    done.
Qed.

Lemma collapse_newlines_from_id run s :
  (run ≤ 1)%nat →
  (run = 1%nat → head_char s ≠ Some newline) →
  no_pair newline s = true →
  collapse_newlines_from run s = newlines run +:+ s.
Proof.
  revert run. induction s as [|c t IH]; intros run Hle Hrun Hs.
  - simpl. rewrite string_app_nil_r. f_equal. lia.
  - rewrite no_pair_cons in Hs. apply andb_true_iff in Hs as [Hh Ht]. simpl.
    destruct (decide (c = newline)) as [->|Hc].
    + assert (run = 0%nat) as -> by (destruct run as [|[|r]]; [done| |lia];
                                     by destruct Hrun).
      rewrite IH; [done | lia | | done].
      intros _ Hn. by rewrite !bool_decide_eq_true_2 in Hh.
    + rewrite (IH 0%nat); [|lia|done|done]. simpl.
      f_equal. f_equal. lia.
Qed.

Lemma split_newline_cons c t :
  split_newline (String c t) =
  if decide (c = newline) then "" :: split_newline t
  else match split_newline t with
       | line :: lines => String c line :: lines
       | [] => [String c ""]
       end.
Proof. reflexivity. Qed.

Lemma split_newline_not_nil s : split_newline s ≠ [].
Proof.
  induction s as [|c t IH]; [done|]. rewrite split_newline_cons.
  destruct (decide (c = newline)); [done|]. by destruct (split_newline t).
Qed.

Lemma join_head_cons sep c line lines :
  join sep (String c line :: lines) = String c (join sep (line :: lines)).
Proof. by destruct lines. Qed.

Lemma join_split_newline s : join nl (split_newline s) = s.
Proof.
  induction s as [|c t IH]; [done|]. rewrite split_newline_cons.
  pose proof (split_newline_not_nil t) as Hne.
  destruct (split_newline t) as [|line lines]; [done|].
  destruct (decide (c = newline)) as [->|Hc].
  - by rewrite join_cons, IH.
  - by rewrite join_head_cons, IH.
Qed.

Lemma split_newline_infix s line :
  line ∈ split_newline s → ∃ a b, s = a +:+ line +:+ b.
Proof.
  intros [i Hi]%list_elem_of_lookup.
  destruct (join_lookup nl _ i line Hi) as (a & b & Hj).
  exists a, b. by rewrite <- Hj, join_split_newline.
Qed.

Lemma split_newline_no_newline s :
  Forall (λ line, has_char newline line = false) (split_newline s).
Proof.
  induction s as [|c t IH]; [by repeat constructor|].
  rewrite split_newline_cons. destruct (decide (c = newline)).
  - by constructor.
  - pose proof (split_newline_not_nil t) as Hne.
    destruct (split_newline t) as [|line lines]; [done|].
    inversion IH as [|? ? Hl Hls]; subst. constructor; [|done].
    simpl. by rewrite Hl, bool_decide_eq_false_2.
Qed.

Lemma split_newline_whole s : has_char newline s = false → split_newline s = [s].
Proof.
  induction s as [|c t IH]; [done|]. simpl has_char.
  intros [Hc Ht]%orb_false_iff. apply bool_decide_eq_false in Hc.
  rewrite split_newline_cons, decide_False, (IH Ht); done.
Qed.

Lemma split_newline_app s t :
  has_char newline s = false →
  split_newline (s +:+ String newline t) = s :: split_newline t.
Proof.
  induction s as [|c s IH]; [done|]. simpl has_char.
  intros [Hc Hs]%orb_false_iff. apply bool_decide_eq_false in Hc.
  rewrite string_app_cons, split_newline_cons, decide_False, (IH Hs); done.
Qed.

Lemma split_newline_join lines :
  lines ≠ [] →
  Forall (λ line, has_char newline line = false) lines →
  split_newline (join nl lines) = lines.
Proof.
  induction lines as [|l lines IH]; [done|]. intros _ Hall.
  inversion Hall as [|? ? Hl Hls]; subst.
  destruct lines as [|m lines]; [by apply split_newline_whole|].
  rewrite join_cons.
  change (split_newline (l +:+ String newline (join nl (m :: lines)))
          = l :: m :: lines).
  rewrite split_newline_app by done. by rewrite IH.
Qed.



Lemma head_not_space s c :
  starts_with_space s = false → is_space c = true → head_char s ≠ Some c.
Proof. unfold starts_with_space. intros H Hc Hh. rewrite Hh in H. congruence. Qed.

Lemma last_not_space s c :
  ends_with_space s = false → is_space c = true → last_char s ≠ Some c.
Proof. unfold ends_with_space. intros H Hc Hl. rewrite Hl in H. congruence. Qed.

Lemma no_pair_absent c s : has_char c s = false → no_pair c s = true.
Proof.
  induction s as [|a t IH]; [done|]. simpl has_char.
  intros [Ha Ht]%orb_false_iff. rewrite no_pair_cons, (IH Ht), Ha. done.
Qed.

Lemma kept_lines_shape txt :
  Forall kept_line
    (filter (λ line, line ≠ "")
       (strip <$> split_newline (collapse_newlines (collapse_spaces txt)))).
Proof.
  apply Forall_forall. intros line [Hne Hin]%list_elem_of_filter.
  apply list_elem_of_fmap in Hin as (l0 & -> & Hl0).
  destruct (strip_shape l0) as [Hs He].
  destruct (strip_infix l0) as (a & b & Hab).
  split; [done|]. split; [done|]. split; [done|]. split.
  - pose proof (split_newline_no_newline
                  (collapse_newlines (collapse_spaces txt))) as Hall.
    rewrite Forall_forall in Hall. specialize (Hall _ Hl0).
    rewrite Hab in Hall. by apply has_char_infix in Hall.
  - destruct (split_newline_infix _ _ Hl0) as (a' & b' & Hu).
    assert (no_pair space (collapse_newlines (collapse_spaces txt)) = true) as Hp
      by apply no_pair_collapse_newlines, no_pair_collapse_spaces.
    rewrite Hu in Hp. apply no_pair_infix in Hp.
    rewrite Hab in Hp. by apply no_pair_infix in Hp.
Qed.

Lemma join_kept_lines lines :
  Forall kept_line lines →
  (lines ≠ [] → join nl lines ≠ "") ∧
  starts_with_space (join nl lines) = false ∧
  ends_with_space (join nl lines) = false ∧
  no_pair newline (join nl lines) = true ∧
  no_pair space (join nl lines) = true.
Proof.
  induction 1 as [|l lines (Hne & Hs & He & Hn & Hp) Hall IH]; [done|].
  destruct lines as [|m lines].
  - simpl. repeat split; auto using no_pair_absent.
  - destruct IH as (Hne' & Hs' & He' & Hn' & Hp').
    specialize (Hne' ltac:(done)).
    rewrite join_cons.
    set (rest := join nl (m :: lines)) in *.
    change (l +:+ nl +:+ rest) with (l +:+ String newline rest).
    destruct l as [|c l]; [done|]. split; [done|]. split; [done|].
    assert (is_Some (last_char rest)) as [x Hx] by (by destruct rest;
      [|apply last_char_is_Some]).
    split; [|split].
    + unfold ends_with_space in *.
      by rewrite last_char_app, last_char_cons, Hx in *.
    + rewrite no_pair_app, (no_pair_cons newline newline rest), Hn',
        (no_pair_absent _ _ Hn).
      rewrite (bool_decide_eq_false_2 (head_char rest = _))
        by (by apply head_not_space).
      rewrite (bool_decide_eq_false_2 (last_char _ = _))
        by (by apply last_not_space).
      by rewrite andb_false_r.
    + rewrite no_pair_app, (no_pair_cons space newline rest), Hp', Hp.
      rewrite (bool_decide_eq_false_2 (newline = space)) by done.
      rewrite (bool_decide_eq_false_2 (last_char _ = _))
        by (by apply last_not_space).
      done.
Qed.

Lemma map_fmap {A B} (f : A → B) (l : list A) : map f l = f <$> l.
Proof. induction l as [|x l IH]; simpl; [done | by rewrite IH]. Qed.

Lemma normalize_text_lines txt :
  ∃ lines, Forall kept_line lines ∧ normalize_text txt = join nl lines.
Proof.
  unfold normalize_text. destruct (decide (txt = "")); [by exists []|].
  rewrite map_fmap.
  eexists. split; [apply kept_lines_shape|].
  destruct (join_kept_lines _ (kept_lines_shape txt)) as (_ & Hs & He & _).
  by apply strip_id.
Qed.


(** X11. A normalised text has no white space at either end, no blank
    line and no two spaces in a row; unless it is empty, each of its lines
    is non-empty and has no white space at either end. *)
Theorem normalize_text_shape (txt : string) :
  let out := normalize_text txt in
  starts_with_space out = false ∧
  ends_with_space out = false ∧
  contains (nl +:+ nl) out = false ∧
  contains "  " out = false ∧
  (out ≠ "" →
   Forall (λ line, line ≠ "" ∧ strip line = line) (split_newline out)).
Proof.
  intros out. unfold out.
  destruct (normalize_text_lines txt) as (lines & Hall & ->).
  destruct (join_kept_lines lines Hall) as (_ & Hs & He & Hn & Hp).
  split; [done|]. split; [done|].
  split; [by apply (no_pair_contains newline)|].
  split; [by apply (no_pair_contains space)|].
  intros Hout. assert (lines ≠ []) as Hne by (by intros ->).
  rewrite split_newline_join; [|done|].
  - eapply Forall_impl; [exact Hall|].
    intros line (? & ? & ? & _). split; [done | by apply strip_id].
  - eapply Forall_impl; [exact Hall|]. by intros line (_ & _ & _ & ? & _).
Qed.

(** X12. Normalising is idempotent: a normalised text, and so a cleaned
    one, is left as it is by another normalisation. *)
Theorem normalize_text_idempotent (self : DataCleaner) (txt : string) :
  normalize_text (normalize_text txt) = normalize_text txt ∧
  normalize_text (clean_text self txt) = clean_text self txt.
Proof.
  assert (∀ t, normalize_text (normalize_text t) = normalize_text t) as Hi.
  { intros t. destruct (normalize_text_lines t) as (lines & Hall & ->).
    destruct (join_kept_lines lines Hall) as (Hne & Hs & He & Hn & Hp).
    destruct lines as [|l lines]; [done|].
    set (out := join nl (l :: lines)) in *.
    unfold normalize_text at 1.
    rewrite decide_False by (by apply Hne).
    unfold collapse_spaces, collapse_newlines.
    rewrite collapse_spaces_from_id by done.
    rewrite (collapse_newlines_from_id 0 out) by (done || lia).
    simpl newlines. change ("" +:+ out) with out. unfold out.
    rewrite split_newline_join;
      [|done|by eapply Forall_impl; [exact Hall|]; intros ? (_ & _ & _ & ? & _)].
    rewrite (map_fmap strip).
    assert (strip <$> (l :: lines) = l :: lines) as ->.
    { clear -Hall. induction Hall as [|m ms (_ & ? & ? & _) _ IH]; [done|].
      by rewrite fmap_cons, IH, strip_id. }
    assert (filter (λ line, line ≠ "") (l :: lines) = l :: lines) as ->.
    { clear -Hall. induction Hall as [|m ms (? & _) _ IH]; [done|].
      by rewrite filter_cons_True, IH. }
    by apply strip_id. }
  split; [apply Hi|]. unfold clean_text. apply Hi.
Qed.

End CleanerFacts.

(** ** The consolidator *)

Section ConsolidatorFacts.
Import Text TextShape RagPipeline Cleaner Consolidator.

Lemma append_item_keys loan_type item grouped :
  (append_item loan_type item grouped).*1
  = if decide (loan_type ∈ grouped.*1) then grouped.*1
    else (grouped.*1 ++ [loan_type])%list.
Proof.
  induction grouped as [|[k items] rest IH]; [done|]. simpl.
  destruct (decide (k = loan_type)) as [->|Hk].
  - rewrite decide_True by left. done.
  - rewrite fmap_cons, IH. simpl.
    destruct (decide (loan_type ∈ rest.*1)) as [Hin|Hout].
    + rewrite decide_True by (by right). done.
    + rewrite decide_False; [done|].
      intros [?|?]%elem_of_cons; [congruence | done].
Qed.

Lemma append_item_NoDup loan_type item grouped :
  NoDup grouped.*1 → NoDup (append_item loan_type item grouped).*1.
Proof.
  intros Hnd. rewrite append_item_keys. case_decide; [done|].
  apply NoDup_app. split; [done|]. split; [|apply NoDup_singleton].
  intros k Hk ->%list_elem_of_singleton. done.
Qed.

Lemma append_item_map loan_type item grouped :
  (list_to_map (append_item loan_type item grouped) : gmap string (list LoanPage))
  = <[loan_type :=
        (default [] ((list_to_map grouped : gmap string (list LoanPage))
                       !! loan_type) ++ [item])%list]>
      (list_to_map grouped).
Proof.
  induction grouped as [|[k items] rest IH]; [done|]. simpl.
  destruct (decide (k = loan_type)) as [->|Hk].
  - rewrite list_to_map_cons, lookup_insert_eq, insert_insert_eq. done.
  - rewrite list_to_map_cons, IH, lookup_insert_ne by done.
    by rewrite insert_insert_ne.
Qed.

Lemma grouped_items data :
  let grouped := fold_left group_step data [] in
  NoDup grouped.*1 ∧
  ∀ k, (list_to_map grouped : gmap string (list LoanPage)) !! k =
       match filter (λ p, successful p = true ∧ loan_type_of p = k) data with
       | [] => None
       | items => Some items
       end.
Proof.
  induction data as [|item data IH] using rev_ind.
  - split; [constructor | done].
  - rewrite fold_left_app. simpl. destruct IH as [Hnd Hmap].
    set (grouped := fold_left group_step data []) in *.
    unfold group_step. destruct (successful item) eqn:Hs.
    + split; [by apply append_item_NoDup|]. intros k.
      rewrite append_item_map, filter_app, Hmap.
      destruct (decide (loan_type_of item = k)) as [<-|Hk].
      * rewrite lookup_insert_eq, filter_cons_True, filter_nil by done.
        by destruct (filter _ data).
      * rewrite lookup_insert_ne by done.
        rewrite filter_cons_False, filter_nil, app_nil_r by (by intros [_ ?]).
        by rewrite Hmap.
    + split; [done|]. intros k.
      rewrite filter_app, filter_cons_False, filter_nil, app_nil_r
        by (intros [? _]; congruence).
      apply Hmap.
Qed.

#[local] Instance key_le_total : Total key_le.
Proof. intros a b. unfold key_le. apply (total String.le). Qed.

Lemma structure_by_product_elem (data : list LoanPage) k items :
  (k, items) ∈ structure_by_product data ↔
  items ≠ [] ∧
  items = filter (λ p, successful p = true ∧ loan_type_of p = k) data.
Proof.
  unfold structure_by_product.
  destruct (grouped_items data) as [Hnd Hmap].
  set (grouped := fold_left group_step data []) in *.
  rewrite (merge_sort_Permutation key_le grouped).
  rewrite (elem_of_list_to_map grouped) by done.
  rewrite Hmap. destruct (filter _ data) as [|p ps].
  - split; [done | by intros [? ->]].
  - split; [by intros [= <-] | by intros [_ ->]].
Qed.

(** X13. The groups of [structure_by_product]: the loan types come in
    ascending order with none repeated; under each loan type stand exactly
    the successful records of that type (records without one under
    "Other Loans"), in the order of the input; and there is no empty
    group. Failed records and records without a [success] entry appear
    nowhere. *)
Theorem structure_by_product_groups (data : list LoanPage) :
  let groups := structure_by_product data in
  Sorted String.le groups.*1 ∧
  NoDup groups.*1 ∧
  ∀ k items,
    (k, items) ∈ groups ↔
    items ≠ [] ∧
    items = filter (λ p, successful p = true ∧ loan_type_of p = k) data.
Proof.
  intros groups. split; [|split]; [| |apply structure_by_product_elem].
  - unfold groups, structure_by_product.
    apply (Sorted_fmap fst key_le String.le); [done|].
    apply Sorted_merge_sort, _.
  - unfold groups, structure_by_product.
    rewrite (merge_sort_Permutation key_le).
    apply grouped_items.
Qed.

Lemma join_empty_cons (l : string) (ls : list string) :
  join "" (l :: ls) = l +:+ join "" ls.
Proof. destruct ls; [by rewrite string_app_nil_r | done]. Qed.

Lemma fold_left_append {A} (f : A → string) (l : list A) (acc : string) :
  fold_left (λ acc x, acc +:+ f x) l acc = acc +:+ join "" (f <$> l).
Proof.
  revert acc. induction l as [|x l IH]; intros acc.
  - simpl. by rewrite string_app_nil_r.
  - simpl fold_left. rewrite IH, fmap_cons, join_empty_cons.
    by rewrite string_app_assoc.
Qed.

Lemma join_empty_elem (x : string) (l : list string) :
  x ∈ l → ∃ pre post, join "" l = pre +:+ x +:+ post.
Proof. intros [i Hi]%list_elem_of_lookup. by apply (join_lookup "" l i). Qed.

(** The document as a concatenation: the header, then for each group its
    heading and the blocks of its loans. *)
Lemma consolidate_loan_data_sections self raw_data :
  consolidate_loan_data self raw_data =
  header +:+
  join "" ((λ group, (nl +:+ "## " +:+ group.1 +:+ nl +:+ nl) +:+
                     join "" (loan_block self <$> group.2))
           <$> structure_by_product raw_data).
Proof.
  unfold consolidate_loan_data.
  generalize (structure_by_product raw_data) as groups.
  generalize header as acc. intros acc groups. revert acc.
  induction groups as [|g groups IH]; intros acc.
  - simpl. by rewrite string_app_nil_r.
  - simpl fold_left. rewrite IH, fold_left_append, fmap_cons, join_empty_cons.
    by rewrite !string_app_assoc.
Qed.

(** X14. The consolidated document always begins with the fixed
    two-paragraph header, and is that header alone when no record is
    successful. Every successful record has the heading of its loan type in
    the document and, after that heading, the block of its own (name,
    cleaned content, source and rule), which is empty only if its content
    cleans to nothing. *)
Theorem consolidate_loan_data_contents (self : DataConsolidator)
    (raw_data : list LoanPage) :
  let out := consolidate_loan_data self raw_data in
  (∃ rest, out = header +:+ rest) ∧
  ((∀ p, p ∈ raw_data → successful p = false) → out = header) ∧
  ∀ p, p ∈ raw_data → successful p = true →
    ∃ before between after,
      out = before +:+ (nl +:+ "## " +:+ loan_type_of p +:+ nl +:+ nl)
            +:+ between +:+ loan_block self p +:+ after.
Proof.
  intros out. unfold out. rewrite consolidate_loan_data_sections.
  pose proof (structure_by_product_elem raw_data) as Hgroups.
  split; [by eexists|]. split.
  - intros Hfail.
    destruct (structure_by_product raw_data) as [|[k items] groups];
      [simpl; by rewrite string_app_nil_r|].
    destruct (proj1 (Hgroups k items)) as [Hne Hitems]; [left|].
    destruct items as [|p ps]; [done|].
    assert (p ∈ filter (λ p, successful p = true ∧ loan_type_of p = k) raw_data)
      as [[Hs _] Hin]%list_elem_of_filter by (rewrite <- Hitems; left).
    rewrite (Hfail p Hin) in Hs. done.
  - intros p Hin Hs.
    set (items := filter (λ q, successful q = true ∧ loan_type_of q = loan_type_of p)
                    raw_data).
    assert (p ∈ items) as Hp by (by apply list_elem_of_filter).
    assert ((loan_type_of p, items) ∈ structure_by_product raw_data) as Hg.
    { apply Hgroups. split; [|done]. intros Hnil. rewrite Hnil in Hp.
      by apply elem_of_nil in Hp. }
    apply list_elem_of_split in Hg as (g1 & g2 & ->).
    destruct (join_empty_elem (loan_block self p) (loan_block self <$> items))
      as (b1 & b2 & Hb); [by apply list_elem_of_fmap_2|].
    rewrite fmap_app, fmap_cons. simpl fst. simpl snd. rewrite Hb.
    set (sections := λ group : string * list LoanPage, _).
    assert (∀ l1 x l2, join "" (l1 ++ x :: l2)
                       = join "" l1 +:+ x +:+ join "" l2) as Hj.
    { intros l1 x l2. induction l1 as [|y l1 IH]; simpl app.
      - by rewrite join_empty_cons.
      - by rewrite !join_empty_cons, IH, string_app_assoc. }
    rewrite Hj. eexists (header +:+ join "" (sections <$> g1)), b1, _.
    rewrite !string_app_assoc. reflexivity.
Qed.

End ConsolidatorFacts.

(** ** The question loop *)

Section CliFacts.
Import Text TextShape Cli.

(** X15. The question loop never asks an empty question: a line is asked
    only stripped of surrounding white space, non-empty, and not one of
    the leaving words; a line of white space only is skipped; and a line
    that is "exit", "quit" or "q" in any mix of cases, with any white
    space around it, ends the loop. *)
Theorem turn_decides (line : string) :
  (∀ question,
     turn line = Ask question →
     question = strip line ∧ question ≠ "" ∧
     starts_with_space question = false ∧ ends_with_space question = false ∧
     lower question ∉ ["exit"; "quit"; "q"]) ∧
  (nonspace line = "" → turn line = Skip) ∧
  (lower (strip line) ∈ ["exit"; "quit"; "q"] → turn line = Leave).
Proof.
  unfold turn. destruct (strip_shape line) as [Hs He].
  split; [|split].
  - intros question. destruct (decide (strip line = "")); [done|].
    case_bool_decide as Hw; [done|]. by intros [= <-].
  - intros Hn. rewrite decide_True; [done|].
    apply nonspace_empty_trimmed; [done|]. by rewrite nonspace_strip.
  - intros Hw. rewrite decide_False.
    + by rewrite bool_decide_eq_true_2.
    + intros Hnil. rewrite Hnil in Hw. simpl in Hw.
      repeat (apply elem_of_cons in Hw as [?|Hw]; [done|]).
      by apply elem_of_nil in Hw.
Qed.

End CliFacts.

(** ** The scraper *)

Section ScraperFacts.
Import Text DataProcessor RagPipeline Scraper.

Lemma extract_loan_type_url_rules url :
  _extract_loan_type url = first_match url_rules "Other Loan" (lower url).
Proof.
  unfold _extract_loan_type, url_rules.
  generalize (lower url) as s. intros s.
  cbn [first_match rule_matches existsb].
  rewrite !orb_false_r, <- !orb_assoc. reflexivity.
Qed.

(** X16. The label of a URL is always one of the fifteen labels of the
    chain, and a keyword occurring in the lowercased URL bounds it: the
    label is that of the keyword's rule or of a rule before it. So a URL
    in which "car" occurs, as it does in "card", is never labelled beyond
    "Vehicle Loan". *)
Theorem extract_loan_type_url (url : string) :
  _extract_loan_type url ∈ "Other Loan" :: url_rules.*2 ∧
  (∀ i keywords label kw,
     url_rules !! i = Some (keywords, label) →
     kw ∈ keywords →
     contains kw (lower url) = true →
     ∃ j keywords',
       (j ≤ i)%nat ∧ url_rules !! j = Some (keywords', _extract_loan_type url)) ∧
  (contains "car" (lower url) = true →
   _extract_loan_type url ∈
     ["Retail Interest Rates"; "Interest Rates"; "Home Loan"; "Vehicle Loan"]).
Proof.
  rewrite extract_loan_type_url_rules.
  assert (∀ i keywords label kw,
     url_rules !! i = Some (keywords, label) →
     kw ∈ keywords →
     contains kw (lower url) = true →
     ∃ j keywords',
       (j ≤ i)%nat ∧
       url_rules !! j
       = Some (keywords', first_match url_rules "Other Loan" (lower url)))
    as Hbound.
  { intros i keywords label kw Hi Hkw Hc.
    destruct (first_match_priority url_rules "Other Loan" (lower url)
                i keywords label Hi) as (j & kws' & Hj & Hl & _).
    { unfold rule_matches. apply existsb_exists. exists kw.
      split; [by apply list_elem_of_In | done]. }
    by exists j, kws'. }
  split; [|split; [exact Hbound|]].
  - destruct (first_match_label url_rules "Other Loan" (lower url)) as [->|H];
      [left | by right].
  - intros Hcar.
    destruct (Hbound 3%nat _ _ "car" eq_refl) as (j & kws' & Hj & Hl);
      [by left | done |].
    generalize dependent (first_match url_rules "Other Loan" (lower url)).
    intros lbl _ Hl.
    destruct j as [|[|[|[|j]]]]; [..|lia]; simpl in Hl;
      injection Hl as _ <-; repeat constructor.
Qed.

Section RetryFacts.
Context `{W : Web}.

Lemma fetches_app (l k : list Event) : fetches (l ++ k) = (fetches l ++ fetches k)%list.
Proof. unfold fetches. apply omap_app. Qed.

Lemma fetches_fetched url (l : list Event) :
  fetches (Fetched url :: l) = url :: fetches l.
Proof. reflexivity. Qed.




Lemma sleep_events seconds s r s' :
  sleep seconds s = (r, s') →
  ∃ new, events s' = (events s ++ new)%list ∧ fetches new = [].
Proof.
  unfold sleep. destruct (Qle_bool 0 seconds); intros [= <- <-].
  - by exists [Slept seconds].
  - exists []. by rewrite app_nil_r.
Qed.

Lemma fetch_once_events self url s r s' :
  fetch_once self url s = (r, s') →
  ∃ new, events s' = (events s ++ new)%list ∧ fetches new = [url].
Proof.
  unfold fetch_once. destruct (session_get (net s) url) as [[response|e] net'].
  - destruct (sleep (delay self) _) as [[[]|e] s2] eqn:Hsl;
      intros [= <- <-]; destruct (sleep_events _ _ _ _ Hsl) as (new & -> & Hn);
      simpl; exists (Fetched url :: new); rewrite <- app_assoc;
      (split; [done|]); by rewrite fetches_fetched, Hn.
  - intros [= <- <-]. by exists [Fetched url].
Qed.

Lemma attempts_events self url attempt remaining s :
  ∃ new,
    events (attempts self url attempt remaining s).2 = (events s ++ new)%list ∧
    (length (fetches new) ≤ remaining)%nat ∧
    Forall (λ fetched, fetched = url) (fetches new).
Proof.
  revert attempt s. induction remaining as [|remaining IH]; intros attempt s.
  - exists []. simpl. by rewrite app_nil_r.
  - simpl attempts.
    destruct (fetch_once self url s) as [[response|e] s1] eqn:Hf;
      destruct (fetch_once_events _ _ _ _ _ Hf) as (new1 & Hev1 & Hn1).
    + exists new1. rewrite Hn1. simpl. split; [done|]. split; [lia | by constructor].
    + destruct (request_exception e);
        [destruct (attempt <? max_retries self - 1)%Z|];
        try (exists new1; rewrite Hn1; simpl; split; [done|];
             split; [lia | by constructor]).
      destruct (sleep _ s1) as [[[]|e'] s2] eqn:Hsl;
        destruct (sleep_events _ _ _ _ Hsl) as (new2 & Hev2 & Hn2).
      * destruct (IH (attempt + 1)%Z s2) as (new3 & Hev3 & Hlen & Hall).
        exists (new1 ++ new2 ++ new3)%list.
        rewrite Hev3, Hev2, Hev1, !fetches_app, Hn1, Hn2, <- !app_assoc. simpl.
        split; [done|]. split; [lia | by constructor].
      * exists (new1 ++ new2)%list.
        simpl. rewrite Hev2, Hev1, !fetches_app, Hn1, Hn2, <- !app_assoc. simpl.
        split; [done|]. split; [lia | by constructor].
Qed.

(** X17. Fetching a page never makes more than [max_retries] requests,
    all of them for the page asked; with [max_retries] zero or negative it
    makes none, and answers [None] leaving everything as it was. *)
Theorem make_request_bounded (self : BankOfMaharashtraScraper) (url : string)
    (s : Site) :
  (∃ new,
     events (_make_request self url s).2 = (events s ++ new)%list ∧
     (Z.of_nat (length (fetches new)) ≤ 0 `max` max_retries self)%Z ∧
     Forall (λ fetched, fetched = url) (fetches new)) ∧
  ((max_retries self ≤ 0)%Z → _make_request self url s = (Returns None, s)).
Proof.
  unfold _make_request. split.
  - destruct (attempts_events self url 0 (Z.to_nat (max_retries self)) s)
      as (new & Hev & Hlen & Hall).
    exists new. split; [done|]. split; [lia | done].
  - intros Hle. by rewrite Z2Nat.nonpos.
Qed.



End RetryFacts.

End ScraperFacts.

(** ** The further properties at sample inputs *)

Section RunsMore.
Import Text TextShape DataProcessor RagPipeline Cleaner Consolidator Cli Scraper.
Import Fixture Samples.


Lemma extract_loan_type_vocabulary_witness :
  ∃ j keywords',
    (j ≤ 7)%nat ∧
    label_rules !! j
    = Some (keywords', _extract_loan_type_from_chunk "Gold Loan interest rate 9%").
Proof.
  apply (proj2 (extract_loan_type_vocabulary "Gold Loan interest rate 9%")
           7%nat ["interest rate"] "Interest Rates" "interest rate");
    [reflexivity | left | reflexivity].
Defined.

Lemma build_context_blocks_witness :
  _build_context {| documents := []; distances := []; metadatas := [] |} = "" ∧
  ∃ pre post,
    _build_context two_documents
    = pre +:+ ("[Source 2]" +:+ nl +:+ "Personal loan tenure is 5 years." +:+ nl)
      +:+ post.
Proof.
  split.
  - apply (proj1 (build_context_blocks
                    {| documents := []; distances := []; metadatas := [] |})).
    reflexivity.
  - apply (proj2 (build_context_blocks two_documents) 1%nat
             "Personal loan tenure is 5 years.").
    reflexivity.
Defined.

Lemma build_prompt_carries_witness :
  contains ("[Source 1]" +:+ nl +:+ "Home loan rate is 8.5%." +:+ nl)
    (_build_prompt "What is the rate?" (_build_context two_documents)) = true.
Proof.
  apply (proj2 (proj2 (build_prompt_carries "What is the rate?" two_documents))
           0%nat "Home loan rate is 8.5%.").
  reflexivity.
Defined.

Lemma generate_answer_replies_witness :
  (generate_answer (E := scripted) (llm_client pipeline)
     "What is the rate?" "[Source 1]" 2000 serving).1
  = Returns "The rate is 8.5%.".
Proof.
  exact (f_equal fst
           (generate_answer_replies (E := scripted) (llm_client pipeline)
              "What is the rate?" "[Source 1]" 2000 serving
              [Some " The rate is 8.5%. "] [] eq_refl)).
Defined.

Lemma normalize_text_shape_witness :
  Forall (λ line, line ≠ "" ∧ strip line = line)
    (split_newline (normalize_text untidy)).
Proof.
  apply (normalize_text_shape untidy). discriminate.
Defined.

Lemma structure_by_product_groups_witness :
  ("Gold Loan", [gold; page (Some true) (Some "Gold Loan") None (Some "MSME gold")])
  ∈ structure_by_product pages.
Proof.
  apply (proj2 (proj2 (structure_by_product_groups pages))).
  split; [discriminate | reflexivity].
Defined.

Lemma consolidate_loan_data_contents_witness :
  ∃ before between after,
    consolidate_loan_data plain pages
    = before +:+ (nl +:+ "## " +:+ "Gold Loan" +:+ nl +:+ nl)
      +:+ between +:+ loan_block plain gold +:+ after.
Proof.
  apply (proj2 (proj2 (consolidate_loan_data_contents plain pages)) gold);
    [left | reflexivity].
Defined.

Lemma turn_decides_witness :
  "what is the rate?" = strip "  what is the rate? " ∧
  "what is the rate?" ≠ "" ∧
  starts_with_space "what is the rate?" = false ∧
  ends_with_space "what is the rate?" = false ∧
  lower "what is the rate?" ∉ ["exit"; "quit"; "q"].
Proof.
  apply (proj1 (turn_decides "  what is the rate? ")). reflexivity.
Defined.

Lemma extract_loan_type_url_witness :
  Scraper._extract_loan_type "/kisan-credit-card" ∈
    ["Retail Interest Rates"; "Interest Rates"; "Home Loan"; "Vehicle Loan"].
Proof.
  apply (proj2 (proj2 (extract_loan_type_url "/kisan-credit-card"))).
  reflexivity.
Defined.

Lemma make_request_bounded_witness :
  _make_request (W := down) idle "/gold-loan" fresh = (Returns None, fresh).
Proof.
  apply (proj2 (make_request_bounded (W := down) idle "/gold-loan" fresh)).
  simpl. lia.
Defined.


End RunsMore.

(** ** Writing the index *)

Section IndexBuildFacts.
Import Text DataProcessor RagPipeline IndexBuild.
Context `{S : Storage}.

Lemma for_each_getitem_ok {A B} (key : string) (field : A → option B)
    (l : list A) (values : list B) (w : World) :
  Some <$> values = field <$> l →
  for_each (λ x, getitem key (field x)) l w = (Returns values, w).
Proof.
  revert values. induction l as [|x l IH]; intros values Hv.
  - by destruct values.
  - destruct values as [|v values]; [done|].
    rewrite !fmap_cons in Hv. injection Hv as Hx Hl.
    simpl. unfold bind at 1. rewrite <- Hx. simpl.
    unfold bind at 1. by rewrite (IH values Hl).
Qed.

Lemma for_each_getitem_missing {A B} (key : string) (field : A → option B)
    (l : list A) (w : World) :
  Exists (λ x, field x = None) l →
  for_each (λ x, getitem key (field x)) l w
  = (Raises (Exception "KeyError" ("'" +:+ key +:+ "'")), w).
Proof.
  induction l as [|x l IH]; intros Hex; [by apply Exists_nil in Hex|].
  simpl. unfold bind at 1.
  destruct (field x) as [v|] eqn:Hx; [|done]. simpl.
  apply Exists_cons in Hex as [Hex|Hex]; [congruence|].
  unfold bind at 1. by rewrite (IH Hex).
Qed.

Lemma add_documents_complete (chunks : list ChunkEntry)
    (embeddings : list (list Q)) (w : World) ids documents :
  Some <$> ids = ck_chunk_id <$> chunks →
  Some <$> documents = ck_text <$> chunks →
  add_documents chunks embeddings w
  = store (collection_add (collection w)
             {| arg_ids := ids;
                arg_embeddings := embeddings;
                arg_documents := documents;
                arg_metadatas :=
                  (λ chunk,
                     {| md_loan_type := default "General" (ck_loan_type chunk);
                        md_chunk_index := default 0%Z (ck_chunk_index chunk) |})
                  <$> chunks |}) w.
Proof.
  intros Hi Hd. unfold add_documents. unfold bind at 1.
  rewrite (for_each_getitem_ok "chunk_id" ck_chunk_id chunks ids w Hi).
  unfold bind at 1.
  rewrite (for_each_getitem_ok "text" ck_text chunks documents w Hd).
  by rewrite (map_fmap _ chunks).
Qed.

(** X19. [add_documents] reads every chunk before it writes anything: a
    chunk without [chunk_id], or else one without [text], makes it raise
    the [KeyError] of that key with the collection untouched. When no
    chunk lacks either, the collection is given the ids and the texts of
    the chunks in order, the embeddings as passed, and for each chunk its
    [loan_type] ("General" if missing) and [chunk_index] (0 if missing). *)
Theorem add_documents_arguments (chunks : list ChunkEntry)
    (embeddings : list (list Q)) (w : World) :
  (Exists (λ chunk, ck_chunk_id chunk = None) chunks →
   add_documents chunks embeddings w
   = (Raises (Exception "KeyError" "'chunk_id'"), w)) ∧
  (Forall (λ chunk, is_Some (ck_chunk_id chunk)) chunks →
   Exists (λ chunk, ck_text chunk = None) chunks →
   add_documents chunks embeddings w
   = (Raises (Exception "KeyError" "'text'"), w)) ∧
  (∀ ids documents,
     Some <$> ids = ck_chunk_id <$> chunks →
     Some <$> documents = ck_text <$> chunks →
     add_documents chunks embeddings w
     = store (collection_add (collection w)
                {| arg_ids := ids;
                   arg_embeddings := embeddings;
                   arg_documents := documents;
                   arg_metadatas :=
                     (λ chunk,
                        {| md_loan_type := default "General" (ck_loan_type chunk);
                           md_chunk_index := default 0%Z (ck_chunk_index chunk) |})
                     <$> chunks |}) w).
Proof.
  unfold add_documents. split; [|split].
  - intros Hex. unfold bind at 1.
    by rewrite (for_each_getitem_missing "chunk_id" ck_chunk_id).
  - intros Hids Hex.
    assert (∃ ids, Some <$> ids = ck_chunk_id <$> chunks) as [ids Hi].
    { clear Hex. induction Hids as [|c cs [v Hv] _ [ids IH]]; [by exists []|].
      exists (v :: ids). by rewrite !fmap_cons, IH, Hv. }
    unfold bind at 1.
    rewrite (for_each_getitem_ok "chunk_id" ck_chunk_id chunks ids w Hi).
    unfold bind at 1.
    by rewrite (for_each_getitem_missing "text" ck_text).
  - intros ids documents. apply add_documents_complete.
Qed.

Lemma chunk_ids_NoDup (self : TextChunker) (txt : string) :
  NoDup (chunk_id <$> chunk_text self txt).
Proof.
  apply NoDup_alt. intros i j id. rewrite !list_lookup_fmap.
  destruct (chunk_text self txt !! i) as [ci|] eqn:Hi; [|done].
  destruct (chunk_text self txt !! j) as [cj|] eqn:Hj; [|done].
  simpl. intros [= Hci] [= Hcj].
  destruct (chunk_text_lookup _ _ _ _ Hi) as (_ & _ & Hidi & _).
  destruct (chunk_text_lookup _ _ _ _ Hj) as (_ & _ & Hidj & _).
  apply chunk_id_inj. congruence.
Qed.

(** X20. The chunks of [chunk_text] always pass [add_documents]: for them
    it never raises a [KeyError], and what it hands to the collection are
    pairwise distinct ids, the pieces of the splitter as documents, and
    for each piece its label and its position. *)
Theorem add_documents_of_chunk_text (self : TextChunker) (txt : string)
    (embeddings : list (list Q)) (w : World) :
  let chunks := chunk_text self txt in
  add_documents (manifest_entry <$> chunks) embeddings w
  = store (collection_add (collection w)
             {| arg_ids := chunk_id <$> chunks;
                arg_embeddings := embeddings;
                arg_documents := split_text self txt;
                arg_metadatas :=
                  imap (λ i piece,
                          {| md_loan_type := _extract_loan_type_from_chunk piece;
                             md_chunk_index := Z.of_nat i |})
                       (split_text self txt) |}) w ∧
  NoDup (chunk_id <$> chunks) ∧
  length (chunk_id <$> chunks) = length (split_text self txt).
Proof.
  intros chunks. split; [|split].
  - rewrite (add_documents_complete (manifest_entry <$> chunks) embeddings w
               (chunk_id <$> chunks) (text <$> chunks)).
    + f_equal. f_equal. f_equal.
      * unfold chunks, chunk_text.
        generalize (length (split_text self txt)) at 1 as total. intros total.
        apply list_eq. intros i. rewrite list_lookup_fmap, list_lookup_imap.
        by destruct (split_text self txt !! i).
      * unfold chunks, chunk_text.
        generalize (length (split_text self txt)) at 1 as total. intros total.
        apply list_eq. intros i.
        rewrite !list_lookup_fmap, !list_lookup_imap.
        by destruct (split_text self txt !! i).
    + by rewrite <- !list_fmap_compose.
    + by rewrite <- !list_fmap_compose.
  - apply chunk_ids_NoDup.
  - rewrite length_fmap. apply chunk_text_length.
Qed.



End IndexBuildFacts.

Section RunsIndex.
Import Text RagPipeline IndexBuild Fixture Samples.

Lemma add_documents_arguments_witness :
  add_documents (S := offline) [without_id] [[0%Q]] serving
  = (Raises (Exception "KeyError" "'chunk_id'"), serving).
Proof.
  apply (proj1 (add_documents_arguments (S := offline) [without_id] [[0%Q]]
                  serving)).
  left. reflexivity.
Defined.


End RunsIndex.
